(** * LanceDB client: SQL literals, TTL cache, record conversion, hybrid query

    A shallow embedding of
    - [toSQL] and [TTLCache] of [nodejs/lancedb/util.ts] (if-chain version)
      and of the second copy of the same module (switch version),
    - [convertToTable] of the node client (in the sources under
      [node/native.js]),
    - the query builder, the RRF reranker and the hybrid executor, which the
      sources only declare and test,
    followed by the properties proved about them. *)

From Stdlib Require Import ZArith QArith String List Lia Permutation Sorted.
From Stdlib Require Import DecimalString.
From stdpp Require Import base gmap strings list.
Import ListNotations.

Set Warnings "-register-all".
Local Open Scope string_scope.
Local Open Scope Z_scope.

(* ===================================================================== *)
(** * Part I: definitions *)
(* ===================================================================== *)

(** ** JavaScript values and exceptions *)

(** The values the TypeScript sources handle.  [IntoSql] is
    [string | number | boolean | null | Date | IntoSql[]]; types are erased
    at run time, so [undefined] can reach the same functions and is part of
    the model.  [number] is left abstract: the sources only store numbers
    and print them.  A [Date] is its time value in milliseconds, [None]
    for the NaN time value of an invalid date. *)
Inductive jsvalue (number : Type) : Type :=
| JString (s : string)
| JNumber (n : number)
| JBoolean (b : bool)
| JNull
| JDate (tv : option Z)
| JArray (items : list (jsvalue number))
| JUndefined.

Arguments JString {number} s.
Arguments JNumber {number} n.
Arguments JBoolean {number} b.
Arguments JNull {number}.
Arguments JDate {number} tv.
Arguments JArray {number} items.
Arguments JUndefined {number}.

(** What a [throw] carries: [Error] with the message of the source,
    [TypeError] and [RangeError] for the ones raised by the language. *)
Inductive exn : Type :=
| Error (msg : string)
| TypeError
| RangeError.

(** A computation that returns or throws; [E] is what it can throw. *)
Inductive outcome (E A : Type) : Type :=
| Return (a : A)
| Throw (e : E).

Arguments Return {E A} a.
Arguments Throw {E A} e.

Abbreviation result := (outcome exn).

Definition bind {E A B} (m : outcome E A) (k : A -> outcome E B) : outcome E B :=
  match m with
  | Return a => k a
  | Throw e => Throw e
  end.

Notation "'let*' x ':=' m 'in' k" := (bind m (fun x => k))
  (at level 10, x name, m at level 100, k at level 200).

(** [Array.prototype.map] with a callback that may throw: left to right,
    stopping at the first exception. *)
Definition mapM {E A B} (f : A -> outcome E B) : list A -> outcome E (list B) :=
  fix go (l : list A) : outcome E (list B) :=
    match l with
    | [] => Return []
    | x :: l' => let* y := f x in let* ys := go l' in Return (y :: ys)
    end.

Definition returns {E A} (m : outcome E A) : bool :=
  match m with Return _ => true | Throw _ => false end.

(** [Array.prototype.join] on strings. *)
Fixpoint join (sep : string) (l : list string) : string :=
  match l with
  | [] => ""
  | [x] => x
  | x :: l' => x ++ sep ++ join sep l'
  end.

Section JsPrimitives.
Context {number : Type}.

Definition typeof (value : jsvalue number) : string :=
  match value with
  | JString _ => "string"
  | JNumber _ => "number"
  | JBoolean _ => "boolean"
  | JUndefined => "undefined"
  | JNull | JDate _ | JArray _ => "object"
  end.

(** [value === null], [value instanceof Date], [Array.isArray(value)]. *)
Definition is_null (value : jsvalue number) : bool :=
  match value with JNull => true | _ => false end.

Definition instanceof_Date (value : jsvalue number) : bool :=
  match value with JDate _ => true | _ => false end.

Definition isArray (value : jsvalue number) : bool :=
  match value with JArray _ => true | _ => false end.

(** Narrowing: after a guard, TypeScript reads [value] at the narrowed
    type.  The default is never reached behind the matching guard; for
    an array the narrowing is a [match] in place, on whose other branch
    [value.map] would not be a function. *)
Definition as_string (value : jsvalue number) : string :=
  match value with JString s => s | _ => "" end.

Definition as_boolean (value : jsvalue number) : bool :=
  match value with JBoolean b => b | _ => false end.

Definition as_Date (value : jsvalue number) : option Z :=
  match value with JDate tv => tv | _ => None end.
End JsPrimitives.

(** One call on a [TTLCache] object, for sequences of calls. *)
Inductive cache_op (number : Type) : Type :=
| OpGet (key : string)
| OpSet (key : string) (value : jsvalue number)
| OpDelete (key : string).

Arguments OpGet {number} key.
Arguments OpSet {number} key value.
Arguments OpDelete {number} key.

(** ** [toSQL] and [TTLCache], if-chain version ([nodejs/lancedb/util.ts]) *)

Module UtilTs.
Section ToSQL.
Context {number : Type}.
(** [Number.prototype.toString] and the rendering of a finite time value
    by [Date.prototype.toISOString]: both come from the language. *)
Variable number_toString : number -> string.
Variable formatISO : Z -> string.

(** [toISOString] throws a RangeError on an invalid date. *)
Definition toISOString (tv : option Z) : result string :=
  match tv with
  | Some t => Return (formatISO t)
  | None => Throw RangeError
  end.

(** The string conversion a template literal applies to a value that is
    not a string, used by the message of the last [throw]. *)
Variable template : jsvalue number -> string.

Definition as_number_toString (value : jsvalue number) : string :=
  match value with JNumber n => number_toString n | _ => "" end.

Fixpoint toSQL (value : jsvalue number) : result string :=
  if String.eqb (typeof value) "string" then
    Return ("'" ++ as_string value ++ "'")
  else if String.eqb (typeof value) "number" then
    Return (as_number_toString value)
  else if String.eqb (typeof value) "boolean" then
    Return (if as_boolean value then "TRUE" else "FALSE")
  else if is_null value then
    Return "NULL"
  else if instanceof_Date value then
    let* iso := toISOString (as_Date value) in
    Return ("'" ++ iso ++ "'")
  else if isArray value then
    match value with
    | JArray items =>
        let* parts := mapM toSQL items in
        Return ("[" ++ join ", " parts ++ "]")
    | _ => Throw TypeError
    end
  else
    Throw (Error ("Unsupported value type: " ++ typeof value
                  ++ " value: (" ++ template value ++ ")")).
End ToSQL.

Module TTLCache.
Section Cache.
Context {number : Type}.

(** [{ value: any; expires: number }]; times are integer milliseconds,
    as [Date.now()] returns them. *)
Record entry : Type := Entry { value : jsvalue number; expires : Z }.

(** The object: the [ttl] field and the [cache] map. *)
Record t : Type := Make { ttl : Z; cache : gmap string entry }.

Definition new (ttl : Z) : t := {| ttl := ttl; cache := ∅ |}.

(** [get(key)] at time [now = Date.now()]: the returned value
    ([JUndefined] for [undefined]) and the object afterwards. *)
Definition get (now : Z) (key : string) (this : t) : jsvalue number * t :=
  match cache this !! key with
  | None => (JUndefined, this)
  | Some entry =>
      if expires entry <? now then
        (JUndefined, {| ttl := ttl this; cache := base.delete key (cache this) |})
      else
        (value entry, this)
  end.

Definition set (now : Z) (key : string) (value : jsvalue number) (this : t) : t :=
  {| ttl := ttl this;
     cache := <[key := {| value := value; expires := now + ttl this |}]> (cache this) |}.

Definition delete (key : string) (this : t) : t :=
  {| ttl := ttl this; cache := base.delete key (cache this) |}.

(** One call at time [now]: what it returns ([undefined] for the two
    [void] methods) and the object afterwards. *)
Definition step (now : Z) (op : cache_op number) (this : t) : jsvalue number * t :=
  match op with
  | OpGet key => get now key this
  | OpSet key value => (JUndefined, set now key value this)
  | OpDelete key => (JUndefined, delete key this)
  end.

(** A sequence of timed calls: the returned values in order and the
    final object. *)
Fixpoint run (ops : list (Z * cache_op number)) (this : t)
  : list (jsvalue number) * t :=
  match ops with
  | [] => ([], this)
  | (now, op) :: rest =>
      let '(out, this') := step now op this in
      let '(outs, final) := run rest this' in
      (out :: outs, final)
  end.
End Cache.
Arguments entry number : clear implicits.
Arguments t number : clear implicits.
End TTLCache.
End UtilTs.

(** ** [toSQL] and [TTLCache], switch version (second copy of the module) *)

(** [switch (true) { case e1: return b1; ...; default: d }]: the case
    expressions are compared with [true] in order, and every body returns
    or throws, so no case falls through. *)
Definition switch_true {A} (cases : list (bool * A)) (default : A) : A :=
  match List.find fst cases with
  | Some c => snd c
  | None => default
  end.

Module Part000.
Section ToSQL.
Context {number : Type}.
Variable number_toString : number -> string.
Variable formatISO : Z -> string.
Variable template : jsvalue number -> string.

Definition toISOString (tv : option Z) : result string :=
  match tv with
  | Some t => Return (formatISO t)
  | None => Throw RangeError
  end.

Definition as_number_toString (value : jsvalue number) : string :=
  match value with JNumber n => number_toString n | _ => "" end.

Fixpoint toSQL (value : jsvalue number) : result string :=
  switch_true
    [ (String.eqb (typeof value) "string",
        Return ("'" ++ as_string value ++ "'"));
      (String.eqb (typeof value) "number",
        Return (as_number_toString value));
      (String.eqb (typeof value) "boolean",
        Return (if as_boolean value then "TRUE" else "FALSE"));
      (is_null value,
        Return "NULL");
      (instanceof_Date value,
        let* iso := toISOString (as_Date value) in
        Return ("'" ++ iso ++ "'"));
      (isArray value,
        match value with
        | JArray items =>
            let* parts := mapM toSQL items in
            Return ("[" ++ join ", " parts ++ "]")
        | _ => Throw TypeError
        end) ]
    (Throw (Error ("Unsupported value type: " ++ typeof value
                   ++ " value: (" ++ template value ++ ")"))).
End ToSQL.

Module TTLCache.
Section Cache.
Context {number : Type}.

Record entry : Type := Entry { value : jsvalue number; expires : Z }.

Record t : Type := Make { ttl : Z; cache : gmap string entry }.

Definition new (ttl : Z) : t := {| ttl := ttl; cache := ∅ |}.

Definition get (now : Z) (key : string) (this : t) : jsvalue number * t :=
  match cache this !! key with
  | None => (JUndefined, this)
  | Some entry =>
      if expires entry <? now then
        (JUndefined, {| ttl := ttl this; cache := base.delete key (cache this) |})
      else
        (value entry, this)
  end.

Definition set (now : Z) (key : string) (value : jsvalue number) (this : t) : t :=
  {| ttl := ttl this;
     cache := <[key := {| value := value; expires := now + ttl this |}]> (cache this) |}.

Definition delete (key : string) (this : t) : t :=
  {| ttl := ttl this; cache := base.delete key (cache this) |}.

(** One call at time [now]: what it returns ([undefined] for the two
    [void] methods) and the object afterwards. *)
Definition step (now : Z) (op : cache_op number) (this : t) : jsvalue number * t :=
  match op with
  | OpGet key => get now key this
  | OpSet key value => (JUndefined, set now key value this)
  | OpDelete key => (JUndefined, delete key this)
  end.

(** A sequence of timed calls: the returned values in order and the
    final object. *)
Fixpoint run (ops : list (Z * cache_op number)) (this : t)
  : list (jsvalue number) * t :=
  match ops with
  | [] => ([], this)
  | (now, op) :: rest =>
      let '(out, this') := step now op this in
      let '(outs, final) := run rest this' in
      (out :: outs, final)
  end.
End Cache.
Arguments entry number : clear implicits.
Arguments t number : clear implicits.
End TTLCache.
End Part000.

(** An object of the if-chain copy of the class read as an object of the
    switch copy: same [ttl], same entries. *)
Definition as_Part000 {number} (c : UtilTs.TTLCache.t number)
  : Part000.TTLCache.t number :=
  {| Part000.TTLCache.ttl := UtilTs.TTLCache.ttl c;
     Part000.TTLCache.cache :=
       (fun e => {| Part000.TTLCache.value := UtilTs.TTLCache.value e;
                    Part000.TTLCache.expires := UtilTs.TTLCache.expires e |})
       <$> UtilTs.TTLCache.cache c |}.

(** The values of type [IntoSql]: no [undefined], at any depth. *)
Fixpoint is_IntoSql {number} (value : jsvalue number) : bool :=
  match value with
  | JUndefined => false
  | JArray items => forallb is_IntoSql items
  | _ => true
  end.

(** Every [Date] in the value has a finite time value. *)
Fixpoint valid_dates {number} (value : jsvalue number) : bool :=
  match value with
  | JDate None => false
  | JArray items => forallb valid_dates items
  | _ => true
  end.

(** Stand-ins for the language's printers in the examples: a number type
    of integers printed in decimal, the ISO rendering of time value [0],
    and the template conversion of [undefined]. *)
Definition print_integer (z : Z) : string := NilZero.string_of_int (Z.to_int z).

Definition print_epoch (t : Z) : string := "1970-01-01T00:00:00.000Z".

Definition print_undefined (value : jsvalue Z) : string := "undefined".

(** ** [convertToTable] (node client, under [node/native.js]) *)

Module Arrow.
Section ConvertToTable.
Context {number : Type}.

(** [Record<string, unknown>]: own keys in insertion order. *)
Definition record : Type := list (string * jsvalue number).

(** [Object.keys(o)]. *)
Definition keys (o : record) : list string := List.map fst o.

(** [o[key]], [undefined] when the key is absent. *)
Fixpoint get_prop (o : record) (key : string) : jsvalue number :=
  match o with
  | [] => JUndefined
  | (k, v) :: o' => if String.eqb k key then v else get_prop o' key
  end.

(** [v.length]: a number for arrays and strings (the characters of an
    ASCII string), [undefined] ([None]) for the other primitives, a
    TypeError on [undefined] and [null]. *)
Definition length_of (v : jsvalue number) : result (option nat) :=
  match v with
  | JArray items => Return (Some (List.length items))
  | JString s => Return (Some (String.length s))
  | JUndefined | JNull => Throw TypeError
  | JNumber _ | JBoolean _ | JDate _ => Return None
  end.

(** [a !== b] on what [length] gives. *)
Definition strict_ne (a b : option nat) : bool :=
  match a, b with
  | Some x, Some y => negb (Nat.eqb x y)
  | None, None => false
  | _, _ => true
  end.

(** [`${vectorSize}`]. *)
Definition show_length (n : option nat) : string :=
  match n with
  | Some x => NilEmpty.string_of_uint (Nat.to_uint x)
  | None => "undefined"
  end.

(** The Arrow vectors the function builds, kept as the values handed to
    the library: [listBuilder.append(x)] for each row of the vector
    column, [vectorFromArray(values)] for any other column. *)
Inductive Vector : Type :=
| ListVector (appended : list (jsvalue number))
| ArrayVector (values : list (jsvalue number)).

(** [new Table(records)]: the columns by name, in insertion order. *)
Definition Table : Type := list (string * Vector).

(** The entry points of apache-arrow that receive the data can throw (so
    [vectorFromArray] on a column of mixed types); the list builder itself
    is made from constants.  Each check gives the
    exception the entry point throws on what it is handed, if it throws:
    [vectorFromArray(values)], [listBuilder.append(x)] after what was
    appended so far, [listBuilder.finish().toVector()] and
    [new Table(records)]. *)
Class Library : Type := {
  vectorFromArray_throws : list (jsvalue number) -> option exn;
  append_throws : list (jsvalue number) -> jsvalue number -> option exn;
  finish_throws : list (jsvalue number) -> option exn;
  Table_throws : Table -> option exn
}.

Context `{Library}.

(** A library call: throws what the check says, else gives its result. *)
Definition guard {A} (check : option exn) (a : A) : result A :=
  match check with
  | Some e => Throw e
  | None => Return a
  end.

Definition vectorFromArray (values : list (jsvalue number)) : result Vector :=
  guard (vectorFromArray_throws values) (ArrayVector values).

Definition append (appended : list (jsvalue number)) (x : jsvalue number)
  : result (list (jsvalue number)) :=
  guard (append_throws appended x) (appended ++ [x])%list.

Definition finish (appended : list (jsvalue number)) : result Vector :=
  guard (finish_throws appended) (ListVector appended).

Definition new_Table (records : Table) : result Table :=
  guard (Table_throws records) records.

(** [records[key] = v] on an object. *)
Fixpoint assign (records : Table) (key : string) (v : Vector) : Table :=
  match records with
  | [] => [(key, v)]
  | (k, old) :: rest =>
      if String.eqb k key then (k, v) :: rest else (k, old) :: assign rest key v
  end.

(** The inner loop of the vector column: [appended] is what the list
    builder has received so far. *)
Fixpoint append_vectors (columnsKey : string) (vectorSize : option nat)
    (data : list record) (appended : list (jsvalue number))
  : result (list (jsvalue number)) :=
  match data with
  | [] => Return appended
  | datum :: rest =>
      let* len := length_of (get_prop datum columnsKey) in
      if strict_ne len vectorSize then
        Throw (Error ("Invalid vector size, expected " ++ show_length vectorSize))
      else
        let* appended' := append appended (get_prop datum columnsKey) in
        append_vectors columnsKey vectorSize rest appended'
  end.

(** The loop over [columns]. *)
Fixpoint build_columns (data : list record) (first : record)
    (columns : list string) (records : Table) : result Table :=
  match columns with
  | [] => Return records
  | columnsKey :: rest =>
      if String.eqb columnsKey "vector" then
        let* vectorSize := length_of (get_prop first "vector") in
        let* appended := append_vectors columnsKey vectorSize data [] in
        let* column := finish appended in
        build_columns data first rest (assign records columnsKey column)
      else
        let values := List.map (fun datum => get_prop datum columnsKey) data in
        let* column := vectorFromArray values in
        build_columns data first rest (assign records columnsKey column)
  end.

Definition convertToTable (data : list record) : result Table :=
  match data with
  | [] => Throw (Error "At least one record needs to be provided")
  | first :: _ =>
      let* records := build_columns data first (keys first) [] in
      new_Table records
  end.

(** The columns that are built before the [vector] column. *)
Fixpoint left_of_vector (columns : list string) : list string :=
  match columns with
  | [] => []
  | columnsKey :: rest =>
      if String.eqb columnsKey "vector" then [] else columnsKey :: left_of_vector rest
  end.

(** The library takes the columns named [columns] of [data]: every value
    handed to the list builder of the [vector] column and the finished
    list, and the values of every other column. *)
Definition accepts (data : list record) (columns : list string) : Prop :=
  forall key, In key columns ->
    if String.eqb key "vector" then
      (forall appended datum, In datum data ->
         append_throws appended (get_prop datum key) = None) /\
      finish_throws (List.map (fun datum => get_prop datum key) data) = None
    else
      vectorFromArray_throws (List.map (fun datum => get_prop datum key) data) = None.

(** The list builder takes the vectors of length [n] of [data]. *)
Definition accepts_vectors (n : nat) (data : list record) : Prop :=
  forall appended datum, In datum data ->
    match get_prop datum "vector" with
    | JArray items =>
        List.length items = n ->
        append_throws appended (get_prop datum "vector") = None
    | _ => True
    end.

(** The length of a record's [vector] field when the field is an array, as
    the cast [as any[]] of the source takes it to be. *)
Definition vector_length (datum : record) : option nat :=
  match get_prop datum "vector" with
  | JArray items => Some (List.length items)
  | _ => None
  end.

(** What the column of key [columnsKey] holds once its loop is through. *)
Definition column_of (data : list record) (columnsKey : string) : Vector :=
  if String.eqb columnsKey "vector" then
    ListVector (List.map (fun datum => get_prop datum columnsKey) data)
  else
    ArrayVector (List.map (fun datum => get_prop datum columnsKey) data).
End ConvertToTable.
Arguments record number : clear implicits.
Arguments Vector number : clear implicits.
Arguments Table number : clear implicits.
Arguments Library number : clear implicits.
End Arrow.

(** ** Query builder, rerankers and hybrid executor

    The sources hold the native [Query] declaration ([column], [filter],
    [select], [limit], [prefilter], [nearestTo], [refineFactor], [nprobes],
    [executeStream]) and the rerankers test; the builder's validation, the
    RRF reranker and the executor are not among them. *)

Module Hybrid.

(** Modelled from the spec: a row is a mapping from column names to values
    (the row type of the executor, which is missing); the numbers are
    rationals, scores included. *)
Definition row : Type := list (string * jsvalue Q).

(** Modelled from the spec: the error taxonomy of section 7 (the error
    classes are missing). *)
Inductive failure : Type :=
| ValidationError (msg : string)
| ProviderError (msg : string)
| ContractViolationError
| SchemaError (msg : string).

(** Modelled from the spec: what the native search collaborator can fail
    with, section 7 (the native engine is missing). *)
Inductive native_failure : Type :=
| NativeProvider (msg : string)
| NativeSchema (msg : string).

(** Modelled from the spec: native failures are propagated unchanged
    (propagation code missing). *)
Definition propagate (e : native_failure) : failure :=
  match e with
  | NativeProvider msg => ProviderError msg
  | NativeSchema msg => SchemaError msg
  end.

(** Modelled from the spec: [RawResult], a row payload plus the path-native
    score, [distance] or [score] (type missing). *)
Record RawResult : Type := { payload : row; native_score : Q }.

(** Modelled from the spec: the reranker capability set of section 4.5
    (the reranker interface is missing); a strategy need not implement all
    three operations. *)
Record Reranker : Type := {
  rerankVector : option (list row -> list row);
  rerankFts : option (list row -> list row);
  rerankHybrid : option (string -> list row -> list row -> list row)
}.

(** Modelled from the spec: [SearchRequest] of section 3 (the builder class
    is missing; the native declaration has the same setters). *)
Record SearchRequest : Type := {
  vectorQuery : option (list Q);
  textQuery : option string;
  filterPredicate : option string;
  limit : Z;
  offset : Z;
  selectColumns : list string;
  prefilter : bool;
  nprobes : option Z;
  refineFactor : option Z;
  reranker : option Reranker
}.

(** Modelled from the spec: the fluent calls of section 4.1 (builder
    missing). *)
Inductive call : Type :=
| CVector (q : list Q)
| CFullTextSearch (text : string)
| CWhere (predicate : string)
| CSelect (columns : list string)
| CLimit (n : Z)
| CPrefilter (b : bool)
| CRerank (strategy : Reranker)
| CNprobes (n : Z)
| CRefineFactor (n : Z).

(** Modelled from the spec: one accumulation step; no call validates
    (builder missing). *)
Definition accumulate (r : SearchRequest) (c : call) : SearchRequest :=
  match c with
  | CVector q =>
      {| vectorQuery := Some q; textQuery := textQuery r;
         filterPredicate := filterPredicate r; limit := limit r;
         offset := offset r; selectColumns := selectColumns r;
         prefilter := prefilter r; nprobes := nprobes r;
         refineFactor := refineFactor r; reranker := reranker r |}
  | CFullTextSearch text =>
      {| vectorQuery := vectorQuery r; textQuery := Some text;
         filterPredicate := filterPredicate r; limit := limit r;
         offset := offset r; selectColumns := selectColumns r;
         prefilter := prefilter r; nprobes := nprobes r;
         refineFactor := refineFactor r; reranker := reranker r |}
  | CWhere predicate =>
      {| vectorQuery := vectorQuery r; textQuery := textQuery r;
         filterPredicate := Some predicate; limit := limit r;
         offset := offset r; selectColumns := selectColumns r;
         prefilter := prefilter r; nprobes := nprobes r;
         refineFactor := refineFactor r; reranker := reranker r |}
  | CSelect columns =>
      {| vectorQuery := vectorQuery r; textQuery := textQuery r;
         filterPredicate := filterPredicate r; limit := limit r;
         offset := offset r; selectColumns := columns;
         prefilter := prefilter r; nprobes := nprobes r;
         refineFactor := refineFactor r; reranker := reranker r |}
  | CLimit n =>
      {| vectorQuery := vectorQuery r; textQuery := textQuery r;
         filterPredicate := filterPredicate r; limit := n;
         offset := offset r; selectColumns := selectColumns r;
         prefilter := prefilter r; nprobes := nprobes r;
         refineFactor := refineFactor r; reranker := reranker r |}
  | CPrefilter b =>
      {| vectorQuery := vectorQuery r; textQuery := textQuery r;
         filterPredicate := filterPredicate r; limit := limit r;
         offset := offset r; selectColumns := selectColumns r;
         prefilter := b; nprobes := nprobes r;
         refineFactor := refineFactor r; reranker := reranker r |}
  | CRerank strategy =>
      {| vectorQuery := vectorQuery r; textQuery := textQuery r;
         filterPredicate := filterPredicate r; limit := limit r;
         offset := offset r; selectColumns := selectColumns r;
         prefilter := prefilter r; nprobes := nprobes r;
         refineFactor := refineFactor r; reranker := Some strategy |}
  | CNprobes n =>
      {| vectorQuery := vectorQuery r; textQuery := textQuery r;
         filterPredicate := filterPredicate r; limit := limit r;
         offset := offset r; selectColumns := selectColumns r;
         prefilter := prefilter r; nprobes := Some n;
         refineFactor := refineFactor r; reranker := reranker r |}
  | CRefineFactor n =>
      {| vectorQuery := vectorQuery r; textQuery := textQuery r;
         filterPredicate := filterPredicate r; limit := limit r;
         offset := offset r; selectColumns := selectColumns r;
         prefilter := prefilter r; nprobes := nprobes r;
         refineFactor := Some n; reranker := reranker r |}
  end.

(** Modelled from the spec: a chain of builder calls, applied in call order
    (builder missing). *)
Definition build (r0 : SearchRequest) (calls : list call) : SearchRequest :=
  fold_left accumulate calls r0.

(** Modelled from the spec: the validation [execute()] performs, section
    4.1 (missing): [limit <= 0], or a reranker and no search mode. *)
Definition validate (r : SearchRequest) : option failure :=
  if limit r <=? 0 then Some (ValidationError "limit must be positive")
  else
    match reranker r, vectorQuery r, textQuery r with
    | Some _, None, None => Some (ValidationError "reranker without search criteria")
    | _, _, _ => None
    end.

(** Modelled from the spec: the internal score columns of section 6
    (executor missing). *)
Definition internal_columns : list string :=
  ["_distance"; "_score"; "_relevance_score"].

(** Modelled from the spec: membership in the internal score columns
    (executor missing). *)
Definition is_internal (c : string) : bool :=
  existsb (String.eqb c) internal_columns.

(** Modelled from the spec: reading and writing one column of a row
    (row type missing). *)
Fixpoint column (c : string) (r : row) : option (jsvalue Q) :=
  match r with
  | [] => None
  | (k, v) :: r' => if String.eqb k c then Some v else column c r'
  end.

(** Modelled from the spec: writing a column, over the old value if the
    row has the column, else as a new last column (row type missing). *)
Fixpoint set_column (c : string) (v : jsvalue Q) (r : row) : row :=
  match r with
  | [] => [(c, v)]
  | (k, old) :: r' =>
      if String.eqb k c then (k, v) :: r' else (k, old) :: set_column c v r'
  end.

(** Modelled from the spec: the [_relevance_score] of a ranked row, if the
    row has one (row type missing). *)
Definition relevance (r : row) : option Q :=
  match column "_relevance_score" r with
  | Some (JNumber q) => Some q
  | _ => None
  end.

(** Modelled from the spec: assigning the [_relevance_score] of a row
    (row type missing). *)
Definition set_relevance (q : Q) (r : row) : row :=
  set_column "_relevance_score" (JNumber q) r.

(** Modelled from the spec: the sort key of a ranked row, its
    [_relevance_score] (row type missing). *)
Definition score_of (r : row) : Q :=
  match relevance r with
  | Some q => q
  | None => 0%Q
  end.

(** Modelled from the spec: row-value equality (missing); numbers are
    compared as rationals. *)
Fixpoint jsvalue_eqb (a b : jsvalue Q) : bool :=
  match a, b with
  | JString s, JString t => String.eqb s t
  | JNumber p, JNumber q => Qeq_bool p q
  | JBoolean x, JBoolean y => Bool.eqb x y
  | JNull, JNull => true
  | JDate (Some x), JDate (Some y) => Z.eqb x y
  | JDate None, JDate None => true
  | JArray l, JArray m =>
      (fix all2 (l m : list (jsvalue Q)) : bool :=
         match l, m with
         | [], [] => true
         | x :: l', y :: m' => jsvalue_eqb x y && all2 l' m'
         | _, _ => false
         end) l m
  | JUndefined, JUndefined => true
  | _, _ => false
  end.

(** Modelled from the spec: full row-value equality, column by column
    (missing). *)
Fixpoint row_eqb (a b : row) : bool :=
  match a, b with
  | [], [] => true
  | (k, v) :: a', (k', v') :: b' =>
      String.eqb k k' && jsvalue_eqb v v' && row_eqb a' b'
  | _, _ => false
  end.

(** Modelled from the spec: a stable sort by a strict "comes before" test,
    for "sort descending" and for the tie-breaking of RRF (sorting code
    missing).  [x] is put before the first element that does not come
    strictly before it. *)
Fixpoint insert_by {A} (precedes : A -> A -> bool) (x : A) (l : list A) : list A :=
  match l with
  | [] => [x]
  | y :: l' =>
      if precedes y x then y :: insert_by precedes x l' else x :: y :: l'
  end.

(** Modelled from the spec: the stable sort itself, by insertion (sorting
    code missing). *)
Fixpoint sort_by {A} (precedes : A -> A -> bool) (l : list A) : list A :=
  match l with
  | [] => []
  | x :: l' => insert_by precedes x (sort_by precedes l')
  end.

(** Modelled from the spec: the strict order of scores (missing). *)
Definition Qlt_bool (a b : Q) : bool := negb (Qle_bool b a).

Section Executor.
(** Modelled from the spec: the primary-key column set of the table, if
    one is declared (schema missing). *)
Variable primaryKey : option (list string).

(** Modelled from the spec: row identity for deduplication, the primary
    key columns if declared, else the whole row payload (missing). *)
Definition identity (r : row) : row :=
  match primaryKey with
  | Some cols =>
      flat_map (fun c => match column c r with
                         | Some v => [(c, v)]
                         | None => []
                         end) cols
  | None => List.filter (fun cv => negb (is_internal (fst cv))) r
  end.

(** Modelled from the spec: two rows are the same row when their
    identities are equal (missing). *)
Definition same_row (a b : row) : bool := row_eqb (identity a) (identity b).

(** Modelled from the spec: deduplication by row identity, the first
    occurrence stays (missing). *)
Fixpoint dedupe (l : list row) : list row :=
  match l with
  | [] => []
  | r :: l' => r :: List.filter (fun r' => negb (same_row r r')) (dedupe l')
  end.

(** *** Reciprocal Rank Fusion *)

(** Modelled from the spec: [rank_L(row)], the 1-based position of the
    row in list [L], if it is there (RRF reranker missing). *)
Fixpoint rank_from (first : nat) (r : row) (L : list row) : option nat :=
  match L with
  | [] => None
  | x :: L' => if same_row r x then Some first else rank_from (S first) r L'
  end.

(** Modelled from the spec: the rank proper, positions counted from 1
    (RRF reranker missing). *)
Definition rank (r : row) (L : list row) : option nat := rank_from 1 r L.

(** Modelled from the spec: the contribution [1 / (k + rank_L(row))] of a
    list, nothing for a list that does not contain the row. *)
Definition reciprocal (k : nat) (rk : option nat) : Q :=
  match rk with
  | Some n => (1 / inject_Z (Z.of_nat (k + n)))%Q
  | None => 0%Q
  end.

(** Modelled from the spec: [score(row)], the sum over the lists. *)
Definition rrf_score (k : nat) (lists : list (list row)) (r : row) : Q :=
  fold_right Qplus 0%Q (List.map (fun L => reciprocal k (rank r L)) lists).

(** Modelled from the spec: a lower rank wins, a row outside of the list
    loses. *)
Definition rank_lt (a b : option nat) : bool :=
  match a, b with
  | Some x, Some y => Nat.ltb x y
  | Some _, None => true
  | None, _ => false
  end.

(** Modelled from the spec: the final ordering of RRF, descending score,
    ties broken by vector-list rank, then by FTS-list rank, then by
    insertion order (which the stable sort keeps). *)
Definition rrf_precedes (k : nat) (vec fts : list row) (a b : row) : bool :=
  let sa := rrf_score k [vec; fts] a in
  let sb := rrf_score k [vec; fts] b in
  if Qlt_bool sb sa then true
  else if Qlt_bool sa sb then false
  else if rank_lt (rank a vec) (rank b vec) then true
  else if rank_lt (rank b vec) (rank a vec) then false
  else rank_lt (rank a fts) (rank b fts).

(** Modelled from the spec: the three operations of the built-in RRF
    strategy (missing); scores are stored in lowest terms. *)
Definition rrf_hybrid (k : nat) (query : string) (vec fts : list row) : list row :=
  List.map (fun r => set_relevance (Qred (rrf_score k [vec; fts] r)) r)
    (sort_by (rrf_precedes k vec fts) (dedupe (vec ++ fts))).

(** Modelled from the spec: RRF on one list, the same score with the one
    list (RRF reranker missing). *)
Definition rrf_single (k : nat) (results : list row) : list row :=
  List.map (fun r => set_relevance (Qred (rrf_score k [results] r)) r)
    (dedupe results).

(** Modelled from the spec: the built-in strategy as a capability set
    (RRF reranker missing). *)
Definition RRF (k : nat) : Reranker :=
  {| rerankVector := Some (rrf_single k);
     rerankFts := Some (rrf_single k);
     rerankHybrid := Some (rrf_hybrid k) |}.

(** *** Hybrid executor *)

(** Modelled from the spec: the native search collaborator of section 6
    (missing), a black box that returns scored rows in its native order
    or fails. *)
Variable vectorSearch :
  list Q -> option string -> bool -> option Z -> option Z -> Z ->
  outcome native_failure (list RawResult).
(** Modelled from the spec: the full-text path of the same collaborator
    (missing). *)
Variable fullTextSearch :
  string -> option string -> bool -> Z ->
  outcome native_failure (list RawResult).

(** Modelled from the spec: a native failure fails the whole query
    (propagation code missing). *)
Definition lift {A} (m : outcome native_failure A) : outcome failure A :=
  match m with
  | Return a => Return a
  | Throw e => Throw (propagate e)
  end.

(** Modelled from the spec: a raw result as the row handed to a
    reranker, the native score in its internal column. *)
Definition vector_row (x : RawResult) : row :=
  set_column "_distance" (JNumber (native_score x)) (payload x).

(** Modelled from the spec: the same for a full-text result, the score
    in [_score] (executor missing). *)
Definition fts_row (x : RawResult) : row :=
  set_column "_score" (JNumber (native_score x)) (payload x).

(** Modelled from the spec: without a reranker the relevance is the
    negated distance, or the raw FTS score. *)
Definition pass_vector (x : RawResult) : row :=
  set_relevance (- native_score x)%Q (vector_row x).

(** Modelled from the spec: pass-through of a full-text result, the raw
    FTS score as relevance (executor missing). *)
Definition pass_fts (x : RawResult) : row :=
  set_relevance (native_score x) (fts_row x).

(** Modelled from the spec: the contract on what a reranker returns: no
    more rows than the union of its inputs, a [_relevance_score] on every
    row. *)
Definition contract_ok (inputs output : list row) : bool :=
  Nat.leb (List.length output) (List.length (dedupe inputs))
  && forallb (fun r => match relevance r with Some _ => true | None => false end) output.

(** Modelled from the spec: a reranker result that breaks the contract
    fails with ContractViolationError (executor missing). *)
Definition checked (inputs output : list row) : outcome failure (list row) :=
  if contract_ok inputs output then Return output
  else Throw ContractViolationError.

(** Modelled from the spec: mode selection and merge step of section 4.4.
    Each active path asks for up to [limit] candidates.  Where the spec
    is silent: a hybrid query without a configured reranker is merged by
    the built-in RRF with the default [k = 60], a configured reranker
    without [rerankHybrid] breaks the contract, a single-path query whose
    reranker lacks the single-path operation passes through, and with no
    active path there is nothing to merge. *)
Definition merge (r : SearchRequest) : outcome failure (list row) :=
  match vectorQuery r, textQuery r with
  | Some q, None =>
      let* raw := lift (vectorSearch q (filterPredicate r) (prefilter r)
                          (nprobes r) (refineFactor r) (limit r)) in
      match reranker r with
      | Some {| rerankVector := Some f |} =>
          checked (List.map vector_row raw) (f (List.map vector_row raw))
      | _ => Return (List.map pass_vector raw)
      end
  | None, Some text =>
      let* raw := lift (fullTextSearch text (filterPredicate r) (prefilter r)
                          (limit r)) in
      match reranker r with
      | Some {| rerankFts := Some f |} =>
          checked (List.map fts_row raw) (f (List.map fts_row raw))
      | _ => Return (List.map pass_fts raw)
      end
  | Some q, Some text =>
      let* vraw := lift (vectorSearch q (filterPredicate r) (prefilter r)
                           (nprobes r) (refineFactor r) (limit r)) in
      let* fraw := lift (fullTextSearch text (filterPredicate r) (prefilter r)
                           (limit r)) in
      let vec := List.map vector_row vraw in
      let fts := List.map fts_row fraw in
      match reranker r with
      | Some {| rerankHybrid := Some f |} => checked (vec ++ fts) (f text vec fts)
      | Some _ => Throw ContractViolationError
      | None => checked (vec ++ fts) (rrf_hybrid 60 text vec fts)
      end
  | None, None => Return []
  end.

(** Modelled from the spec: the column projection as section 4.4 words
    it (missing): with an empty [selectColumns] all columns but the
    internal ones, else the named columns. *)
Definition keeps_as_worded (selectColumns : list string) (c : string) : bool :=
  match selectColumns with
  | [] => negb (is_internal c)
  | _ => existsb (String.eqb c) selectColumns
  end.


(** Modelled from the spec: a hybrid query with a configured reranker
    (executor missing), the kind of query of the rerankers test
    ([nearestTo], [fullTextSearch] and [rerank]). *)
Definition reranked_hybrid (r : SearchRequest) : bool :=
  match vectorQuery r, textQuery r, reranker r with
  | Some _, Some _, Some _ => true
  | _, _, _ => false
  end.

(** Modelled from the spec: the columns the executor keeps (missing),
    those of section 4.4.  The rerankers test forces one departure: its
    hybrid query with a reranker selects [text] alone and asserts rows
    with [text] and [_relevance_score], so on such a query the ranking
    column stays. *)
Definition keeps (r : SearchRequest) (c : string) : bool :=
  keeps_as_worded (selectColumns r) c
  || (reranked_hybrid r && String.eqb c "_relevance_score").

(** Modelled from the spec: the projection of a row, its kept columns in
    row order (executor missing). *)
Definition project (r : SearchRequest) (x : row) : row :=
  List.filter (fun cv => keeps r (fst cv)) x.

(** Modelled from the spec: "comes before" of the descending sort by
    [_relevance_score] (executor missing). *)
Definition by_relevance (a b : row) : bool := Qlt_bool (score_of b) (score_of a).

(** Modelled from the spec: the post-merge step of section 4.4 (missing):
    deduplicate, sort descending by [_relevance_score], truncate to
    [limit], project. *)
Definition postMerge (r : SearchRequest) (merged : list row) : list row :=
  List.map (project r)
    (firstn (Z.to_nat (limit r)) (sort_by by_relevance (dedupe merged))).

(** Modelled from the spec: [execute()] (missing): validation, then the
    executor; the result sequence is the list of its rows. *)
Definition execute (r : SearchRequest) : outcome failure (list row) :=
  match validate r with
  | Some e => Throw e
  | None => let* merged := merge r in Return (postMerge r merged)
  end.
End Executor.

(** Modelled from the spec: the outcome "fails with ValidationError"
    (error classes missing). *)
Definition fails_validation {A} (m : outcome failure A) : bool :=
  match m with
  | Throw (ValidationError _) => true
  | _ => false
  end.



(** Modelled from the spec: the names of the columns of an output row
    (row type missing). *)
Definition columns_of (r : row) : list string := List.map fst r.

(** Modelled from the spec: a fresh builder, nothing set (missing); the
    spec gives no default for [limit] and two for [prefilter]. *)
Definition query (defaultLimit : Z) (defaultPrefilter : bool) : SearchRequest :=
  {| vectorQuery := None; textQuery := None; filterPredicate := None;
     limit := defaultLimit; offset := 0; selectColumns := [];
     prefilter := defaultPrefilter; nprobes := None; refineFactor := None;
     reranker := None |}.

End Hybrid.

(** ** The rerankers test ("will query with the custom reranker") *)

Module RerankersTest.
Import Hybrid.

(** The first row of [beforeEach]. *)
Definition dog : row :=
  [("vector", JArray [JNumber (1 # 10); JNumber (1 # 10)]); ("text", JString "dog")].

(** The second row of [beforeEach]. *)
Definition cat : row :=
  [("vector", JArray [JNumber (2 # 10); JNumber (2 # 10)]); ("text", JString "cat")].

(** [expectedResult], the static data the custom reranker returns. *)
Definition expectedResult : list row :=
  [ [("text", JString "albert"); ("_relevance_score", JNumber (99 # 100))] ].

(** [MyCustomReranker]: [rerankHybrid] alone, which ignores its inputs. *)
Definition MyCustomReranker : Reranker :=
  {| rerankVector := None;
     rerankFts := None;
     rerankHybrid := Some (fun _query _vecResults _ftsResults => expectedResult) |}.

(** [.nearestTo([0.1, 0.1]).fullTextSearch("dog").rerank(...)
     .select(["text"]).limit(5)]. *)
Definition calls : list call :=
  [ CVector [1 # 10; 1 # 10];
    CFullTextSearch "dog";
    CRerank MyCustomReranker;
    CSelect ["text"];
    CLimit 5 ].


(** Modelled from the spec: the vector path of the native engine on the
    two-row table of the test (missing): both rows by distance to the
    query vector. *)
Definition vectorSearch (q : list Q) (filter : option string) (prefilter : bool)
    (nprobes refineFactor : option Z) (topK : Z)
  : outcome native_failure (list RawResult) :=
  Return [ {| payload := dog; native_score := 0 |};
           {| payload := cat; native_score := 2 # 100 |} ].

(** Modelled from the spec: the full-text path of the native engine on
    the same table (missing): the one row that matches the text. *)
Definition fullTextSearch (text : string) (filter : option string)
    (prefilter : bool) (topK : Z)
  : outcome native_failure (list RawResult) :=
  Return [ {| payload := dog; native_score := 1 |} ].

(** Modelled from the spec: the RRF example of section 8, rows [A], [B],
    [C] by an [id] column, [A, B] from the vector path and [B, C] from the
    FTS path. *)
Definition item (name : string) : row := [("id", JString name)].

(** Modelled from the spec: the vector ranks [A:1, B:2] of that example. *)
Definition vector_ranks : list row :=
  [ set_column "_distance" (JNumber (1 # 10)) (item "A");
    set_column "_distance" (JNumber (2 # 10)) (item "B") ].

(** Modelled from the spec: the FTS ranks [B:1, C:2] of that example. *)
Definition fts_ranks : list row :=
  [ set_column "_score" (JNumber (9 # 1)) (item "B");
    set_column "_score" (JNumber (7 # 1)) (item "C") ].
End RerankersTest.


(** ** Sequences of cache calls: what they wrote *)

Section CacheTraces.
Context {number : Type}.

(** The key a call is about. *)
Definition key_of (op : cache_op number) : string :=
  match op with
  | OpGet key | OpSet key _ | OpDelete key => key
  end.

(** The number of [set] calls in a sequence. *)
Fixpoint count_sets (ops : list (Z * cache_op number)) : nat :=
  match ops with
  | [] => 0%nat
  | (_, OpSet _ _) :: rest => S (count_sets rest)
  | _ :: rest => count_sets rest
  end.

(** The last [set] or [delete] of [key] in a sequence of timed calls, after
    an earlier history summed up by [before]: the time and the value of the
    [set], or [None] after a [delete] and when there was neither. *)
Fixpoint last_write (key : string) (ops : list (Z * cache_op number))
    (before : option (Z * jsvalue number)) : option (Z * jsvalue number) :=
  match ops with
  | [] => before
  | (now, OpSet k value) :: rest =>
      last_write key rest (if String.eqb k key then Some (now, value) else before)
  | (_, OpDelete k) :: rest =>
      last_write key rest (if String.eqb k key then None else before)
  | (_, OpGet _) :: rest => last_write key rest before
  end.
End CacheTraces.

(** The number of slots of a built column: one per appended vector, or
    one per value. *)
Definition slots {number : Type} (v : Arrow.Vector number) : nat :=
  match v with
  | Arrow.ListVector appended => List.length appended
  | Arrow.ArrayVector values => List.length values
  end.

(** ** Connections and tables of the node client ([node/native.js], the
    part that comes from [index.ts]) *)

Module NodeClient.

(** [AwsCredentials]. *)
Record AwsCredentials : Type := {
  accessKeyId : string;
  secretKey : string;
  sessionToken : option string
}.

(** [ConnectionOptions] as an object that is read: a field is [None] when
    reading it gives [undefined]. *)
Record ConnectionOptions : Type := {
  uri : option string;
  awsCredentials : option AwsCredentials;
  apiKey : option string;
  region : option string;
  hostOverride : option string
}.

(** A property of an object literal handed to [Object.assign]: not there,
    there with the value [undefined], or there with a value. *)
Inductive prop (A : Type) : Type :=
| Absent
| Undefined
| Value (a : A).

Arguments Absent {A}.
Arguments Undefined {A}.
Arguments Value {A} a.

(** [Partial<ConnectionOptions>]. *)
Record PartialConnectionOptions : Type := {
  p_uri : prop string;
  p_awsCredentials : prop AwsCredentials;
  p_apiKey : prop string;
  p_region : prop string;
  p_hostOverride : prop string
}.

(** One property under [Object.assign(target, source)]: an own property of
    the source wins, also when its value is [undefined]. *)
Definition assign_field {A} (target : option A) (source : prop A) : option A :=
  match source with
  | Absent => target
  | Undefined => None
  | Value a => Some a
  end.

(** [WriteMode] and its [toString()]. *)
Inductive WriteMode : Type := Create | Overwrite | Append.

Definition WriteMode_toString (m : WriteMode) : string :=
  match m with
  | Create => "create"
  | Overwrite => "overwrite"
  | Append => "append"
  end.

(** A property value of an object of type [any], as far as the code looks
    at it: [undefined], a string, or anything else, for which
    [printed] is what [?.toString()] gives ([None] for [null]). *)
Inductive field : Type :=
| FUndefined
| FString (s : string)
| FOther (printed : option string).

(** An object of type [any]: own keys in order. *)
Definition jsobject : Type := list (string * field).

Fixpoint get_field (o : jsobject) (key : string) : field :=
  match o with
  | [] => FUndefined
  | (k, v) :: o' => if String.eqb k key then v else get_field o' key
  end.

(** [new DefaultWriteOptions()]. *)
Definition DefaultWriteOptions : jsobject := [("writeMode", FString "create")].

(** [isWriteOptions(value)]. *)
Definition isWriteOptions (value : jsobject) : bool :=
  Nat.eqb (List.length (List.map fst value)) 1
  && match get_field value "writeMode" with
     | FUndefined => true
     | FString _ => true
     | FOther _ => false
     end.

(** [writeOptions?.writeMode?.toString()]. *)
Definition writeMode_toString (writeOptions : jsobject) : option string :=
  match get_field writeOptions "writeMode" with
  | FUndefined => None
  | FString s => Some s
  | FOther printed => printed
  end.

Section Native.
Context {number : Type} `{ArrowLibrary : !Arrow.Library number}.
(** The handles, buffers and Arrow objects the client passes around, and
    the functions of the native module and of the modules that are not
    among the sources; each call may fail. *)
Context {db tbl buffer Schema ArrowTable indexParams remote : Type}.
Variable databaseNew : string -> result db.
Variable databaseTableNames : db -> result (list string).
Variable databaseOpenTable : db -> string -> list string -> result tbl.
Variable databaseDropTable : db -> string -> result unit.
Variable tableCreate : db -> string -> buffer -> option string -> list string -> result tbl.
Variable tableAdd : tbl -> buffer -> string -> list string -> result tbl.
Variable tableCreateVectorIndex : tbl -> indexParams -> result tbl.
Variable tableCountRows : tbl -> result number.
Variable tableDelete : tbl -> string -> result tbl.
Variable RemoteConnection : ConnectionOptions -> result remote.
Variable isEmbeddingFunction : jsobject -> bool.
Variable createEmptyTable : Schema -> result ArrowTable.
Variable fromTableToBuffer : ArrowTable -> option jsobject -> result buffer.
(** [ArrowTable.data.length], the number of chunks of an Arrow table. *)
Variable chunks : ArrowTable -> nat.
(** [RecordBatchFileWriter.writeAll(table)] up to [Buffer.from]. *)
Variable writeAll : Arrow.Table number -> result buffer.

(** [fromRecordsToBuffer]; the copy in the sources takes the records
    alone, so a second argument at a call is not read. *)
Definition fromRecordsToBuffer (data : list (Arrow.record number)) : result buffer :=
  let* table := Arrow.convertToTable data in
  writeAll table.

(** [LocalConnection]: [_options()] and [_db]. *)
Record LocalConnection : Type := {
  _options : ConnectionOptions;
  _db : db
}.

(** [LocalTable]; [_tbl] is the one field that is assigned after
    construction, [t_options] is the table's [_options()]. *)
Record LocalTable : Type := {
  _tbl : tbl;
  _name : string;
  _embeddings : option jsobject;
  t_options : ConnectionOptions
}.

(** What [connect] resolves to. *)
Inductive Connection : Type :=
| Remote (r : remote)
| Local (c : LocalConnection).

(** [connect(arg)]. *)
Definition connect (arg : string + PartialConnectionOptions) : result Connection :=
  let opts :=
    match arg with
    | inl s =>
        {| uri := Some s; awsCredentials := None; apiKey := None;
           region := None; hostOverride := None |}
    | inr p =>
        {| uri := assign_field (Some "") (p_uri p);
           awsCredentials := assign_field None (p_awsCredentials p);
           apiKey := assign_field None (p_apiKey p);
           region := assign_field (Some "us-west-2") (p_region p);
           hostOverride := assign_field None (p_hostOverride p) |}
    end in
  match uri opts with
  | None => Throw TypeError
  | Some u =>
      if String.prefix "db://" u then
        let* r := RemoteConnection opts in Return (Remote r)
      else
        let* d := databaseNew u in
        Return (Local {| _options := opts; _db := d |})
  end.

(** [LocalConnection.awsParams()]. *)
Definition awsParams (this : LocalConnection) : list string :=
  match awsCredentials (_options this) with
  | Some credentials =>
      ([accessKeyId credentials; secretKey credentials]
       ++ match sessionToken credentials with
          | Some token => [token]
          | None => []
          end)%list
  | None => []
  end.

Definition tableNames (this : LocalConnection) : result (list string) :=
  databaseTableNames (_db this).

(** [openTable(name, embeddings?)]: both branches build the same table
    object, with or without the embedding function. *)
Definition openTable (name : string) (embeddings : option jsobject)
    (this : LocalConnection) : result LocalTable :=
  let* t := databaseOpenTable (_db this) name (awsParams this) in
  Return {| _tbl := t; _name := name; _embeddings := embeddings;
            t_options := _options this |}.

(** The data of a new table: records or an Arrow table. *)
Inductive table_data : Type :=
| Records (records : list (Arrow.record number))
| Arrow (table : ArrowTable).

(** [CreateTableOptions<T>]. *)
Record CreateTableOptions : Type := {
  o_name : string;
  o_data : option table_data;
  o_schema : option Schema;
  o_embeddingFunction : option jsobject;
  o_writeOptions : option jsobject
}.

(** The local function [isEmpty] of [createTableImpl]. *)
Definition isEmpty (data : table_data) : bool :=
  match data with
  | Arrow table => Nat.eqb (chunks table) 0
  | Records records => Nat.eqb (List.length records) 0
  end.

(** [createTableImpl]; an absent [writeOptions] takes the default of the
    parameter list. *)
Definition createTableImpl (o : CreateTableOptions) (this : LocalConnection)
  : result LocalTable :=
  let writeOptions :=
    match o_writeOptions o with
    | Some w => w
    | None => DefaultWriteOptions
    end in
  let from_schema :=
    match o_schema o with
    | None => Throw (Error "Either data or schema needs to defined")
    | Some schema =>
        let* empty := createEmptyTable schema in fromTableToBuffer empty None
    end in
  let* buf :=
    match o_data o with
    | None => from_schema
    | Some data =>
        if isEmpty data then from_schema
        else
          match data with
          | Arrow table => fromTableToBuffer table (o_embeddingFunction o)
          | Records records => fromRecordsToBuffer records
          end
    end in
  let* t := tableCreate (_db this) (o_name o) buf (writeMode_toString writeOptions)
              (awsParams this) in
  Return {| _tbl := t; _name := o_name o; _embeddings := o_embeddingFunction o;
            t_options := _options this |}.

(** [createTable(name, data?, optsOrEmbedding?, opt?)]: with a string as
    first argument the write options and the embedding function are picked
    from the two trailing arguments, else the first argument is the options
    object. *)
Definition createTable (name : string + CreateTableOptions)
    (data : option (list (Arrow.record number)))
    (optsOrEmbedding opt : option jsobject) (this : LocalConnection)
  : result LocalTable :=
  match name with
  | inl name =>
      let writeOptions :=
        match opt with
        | Some o =>
            if isWriteOptions o then o
            else
              match optsOrEmbedding with
              | Some e => if isWriteOptions e then e else DefaultWriteOptions
              | None => DefaultWriteOptions
              end
        | None =>
            match optsOrEmbedding with
            | Some e => if isWriteOptions e then e else DefaultWriteOptions
            | None => DefaultWriteOptions
            end
        end in
      let embeddings :=
        match optsOrEmbedding with
        | Some e => if isEmbeddingFunction e then Some e else None
        | None => None
        end in
      createTableImpl
        {| o_name := name;
           o_data := match data with Some records => Some (Records records) | None => None end;
           o_schema := None;
           o_embeddingFunction := embeddings;
           o_writeOptions := Some writeOptions |}
        this
  | inr options => createTableImpl options this
  end.

Definition dropTable (name : string) (this : LocalConnection) : result unit :=
  databaseDropTable (_db this) name.

(** The trailing call arguments [add] and [overwrite] push after the
    table, the buffer and the mode. *)
Definition credential_args (this : LocalTable) : list string :=
  match awsCredentials (t_options this) with
  | Some credentials =>
      ([accessKeyId credentials; secretKey credentials]
       ++ match sessionToken credentials with
          | Some token => [token]
          | None => []
          end)%list
  | None => []
  end.

(** [.then((newTable) => { this._tbl = newTable })]: the promise resolves to
    [undefined] and the table handle is replaced; a rejection leaves the
    object as it was. *)
Definition then_replace (call : result tbl) (this : LocalTable)
  : result (jsvalue number) * LocalTable :=
  match call with
  | Return newTable =>
      (Return JUndefined,
       {| _tbl := newTable; _name := _name this; _embeddings := _embeddings this;
          t_options := t_options this |})
  | Throw e => (Throw e, this)
  end.

(** [LocalTable.add(data)]. *)
Definition add (data : list (Arrow.record number)) (this : LocalTable)
  : result (jsvalue number) * LocalTable :=
  match fromRecordsToBuffer data with
  | Throw e => (Throw e, this)
  | Return buf =>
      then_replace
        (tableAdd (_tbl this) buf (WriteMode_toString Append) (credential_args this))
        this
  end.

(** [LocalTable.overwrite(data)]. *)
Definition overwrite (data : list (Arrow.record number)) (this : LocalTable)
  : result (jsvalue number) * LocalTable :=
  match fromRecordsToBuffer data with
  | Throw e => (Throw e, this)
  | Return buf =>
      then_replace
        (tableAdd (_tbl this) buf (WriteMode_toString Overwrite) (credential_args this))
        this
  end.

Definition createIndex (params : indexParams) (this : LocalTable)
  : result (jsvalue number) * LocalTable :=
  then_replace (tableCreateVectorIndex (_tbl this) params) this.

Definition countRows (this : LocalTable) : result number :=
  tableCountRows (_tbl this).

Definition delete (filter : string) (this : LocalTable)
  : result (jsvalue number) * LocalTable :=
  then_replace (tableDelete (_tbl this) filter) this.
End Native.
Arguments LocalConnection db : clear implicits.
Arguments LocalTable tbl : clear implicits.
Arguments Connection db remote : clear implicits.
Arguments table_data number ArrowTable : clear implicits.
Arguments CreateTableOptions number Schema ArrowTable : clear implicits.
End NodeClient.

(** ** The HTTP client of remote connections ([node/src/remote/client.ts]) *)

Module RemoteClient.

(** [HttpLancedbClient]. *)
Record HttpLancedbClient : Type := { _url : string; _apiKey : string }.

Definition uri (this : HttpLancedbClient) : string := _url this.

Section Search.
Context {number : Type}.
(** The bytes of a response body and the Arrow table read from them. *)
Context {bytes ArrowTable : Type}.

(** The body and the configuration of the POST request. *)
Record SearchBody : Type := {
  vector : list number;
  k : number;
  nprobes : number;
  refineFactor : option number;
  columns : option (list string);
  filter : option string
}.

Record Request : Type := {
  url : string;
  body : SearchBody;
  headers : list (string * string);
  responseType : string;
  timeout : Z
}.

(** What the code reads of a response. *)
Record Response : Type := {
  status : Z;
  statusText : string;
  data : bytes
}.

(** How [axios.post] settles: fulfilled with a response, or rejected with
    an error whose [response] may be [undefined]. *)
Inductive settled : Type :=
| Fulfilled (response : Response)
| Rejected (response : option Response).

Variable post : Request -> settled.
(** [new TextDecoder().decode] and [tableFromIPC]. *)
Variable decode : bytes -> string.
Variable tableFromIPC : bytes -> result ArrowTable.

(** The request [search] sends. *)
Definition search_request (this : HttpLancedbClient) (tableName : string)
    (vector : list number) (k nprobes : number) (refineFactor : option number)
    (columns : option (list string)) (filter : option string) : Request :=
  {| url := _url this ++ "/v1/table/" ++ tableName;
     body := {| vector := vector; k := k; nprobes := nprobes;
                refineFactor := refineFactor; columns := columns;
                filter := filter |};
     headers := [("Content-Type", "application/json"); ("x-api-key", _apiKey this)];
     responseType := "arraybuffer";
     timeout := 10000 |}.

(** [search]: the [catch] turns a rejection into [err.response]; reading
    [status] off [undefined] is a TypeError. *)
Definition search (this : HttpLancedbClient) (tableName : string)
    (vector : list number) (k nprobes : number) (refineFactor : option number)
    (columns : option (list string)) (filter : option string) : result ArrowTable :=
  let response :=
    match post (search_request this tableName vector k nprobes refineFactor
                  columns filter) with
    | Fulfilled r => Some r
    | Rejected r => r
    end in
  match response with
  | None => Throw TypeError
  | Some r =>
      if negb (status r =? 200) then
        Throw (Error ("Server Error, status: " ++ print_integer (status r)
                      ++ ", message: " ++ statusText r ++ ": " ++ decode (data r)))
      else tableFromIPC (data r)
  end.
End Search.
Arguments SearchBody number : clear implicits.
Arguments Request number : clear implicits.
Arguments Response bytes : clear implicits.
Arguments settled bytes : clear implicits.
End RemoteClient.

(** ** The Java connection ([Connection.java]) *)

Module JavaConnection.

(** The object: its [uri] field, [null] ([None]) until assigned. *)
Record Connection : Type := { uri : option string }.

Section Native.
(** [nativeTableNames(uri)]. *)
Variable nativeTableNames : option string -> list string.

(** The private constructor: its body is empty, the field stays [null]. *)
Definition new (uri : string) : Connection := {| uri := None |}.

Definition nativeConnection (uri : string) : Connection :=
  let connection := new uri in
  {| JavaConnection.uri := Some uri |}.

Definition connect (uri : string) : Connection := nativeConnection uri.

Definition tableNames (this : Connection) : list string :=
  nativeTableNames (uri this).

(** [tableNames(startAfter, limit)]. *)
Definition tableNames_from (startAfter : string) (limit : Z) (this : Connection)
  : list string :=
  nativeTableNames (uri this).
End Native.
End JavaConnection.

(** ** Stand-ins for the native module in the examples *)

Module StandIn.

(** The kind of a value as a column type sees it; [null] and [undefined]
    fit every column. *)
Definition kind (value : jsvalue Z) : option nat :=
  match value with
  | JNull | JUndefined => None
  | JString _ => Some 1%nat
  | JNumber _ => Some 2%nat
  | JBoolean _ => Some 3%nat
  | JDate _ => Some 4%nat
  | JArray _ => Some 5%nat
  end.

(** A column is mixed when two of its values are of different kinds. *)
Definition mixed (values : list (jsvalue Z)) : bool :=
  match omap kind values with
  | [] => false
  | k :: kinds => existsb (fun k' => negb (Nat.eqb k k')) kinds
  end.

(** An Arrow library that throws a TypeError on a column of mixed types,
    as [vectorFromArray] does, and accepts everything else. *)
#[global] Instance arrow : Arrow.Library Z := {|
  Arrow.vectorFromArray_throws values := if mixed values then Some TypeError else None;
  Arrow.append_throws appended x := None;
  Arrow.finish_throws appended := None;
  Arrow.Table_throws records := None
|}.

(** A database is its URI, a table handle is its number of rows, a buffer
    is the number of rows written into it. *)
Definition databaseNew (uri : string) : result string := Return uri.

Definition RemoteConnection (options : NodeClient.ConnectionOptions)
  : result NodeClient.ConnectionOptions :=
  Return options.

Definition writeAll (table : Arrow.Table Z) : result nat :=
  Return match table with
         | [] => 0%nat
         | (_, column) :: _ => slots column
         end.

Definition databaseOpenTable (db name : string) (credentials : list string)
  : result nat :=
  Return 0%nat.

Definition tableCreate (db name : string) (buffer : nat) (mode : option string)
    (credentials : list string) : result nat :=
  Return buffer.

Definition tableAdd (table buffer : nat) (mode : string)
    (credentials : list string) : result nat :=
  Return (if String.eqb mode "append" then (table + buffer)%nat else buffer).

Definition tableCountRows (table : nat) : result Z := Return (Z.of_nat table).

Definition isEmbeddingFunction (o : NodeClient.jsobject) : bool :=
  match NodeClient.get_field o "embed" with
  | NodeClient.FOther _ => true
  | _ => false
  end.

Definition createEmptyTable (schema : list string) : result (Arrow.Table Z) :=
  Return (List.map (fun name => (name, Arrow.ArrayVector [])) schema).

Definition fromTableToBuffer (table : Arrow.Table Z)
    (embeddings : option NodeClient.jsobject) : result nat :=
  writeAll table.

Definition chunks (table : Arrow.Table Z) : nat :=
  match table with
  | [] => 0%nat
  | (_, column) :: _ => slots column
  end.

(** An HTTP server that answers 404 with the text of its body. *)
Definition post (request : RemoteClient.Request Z)
  : RemoteClient.settled string :=
  RemoteClient.Rejected
    (Some {| RemoteClient.status := 404;
             RemoteClient.statusText := "Not Found";
             RemoteClient.data := "no such table" |}).

Definition decode (bytes : string) : string := bytes.

Definition tableFromIPC (bytes : string) : result string := Return bytes.

(** A Java native listing of two tables. *)
Definition nativeTableNames (uri : option string) : list string := ["a"; "b"].
End StandIn.

(* ===================================================================== *)
(** * Part II: properties *)
(* ===================================================================== *)

(** ** Values *)

(** Induction on values that also gives the hypothesis for the items of an
    array. *)
Lemma jsvalue_items_ind {number : Type} (P : jsvalue number -> Prop) :
  (forall s, P (JString s)) ->
  (forall n, P (JNumber n)) ->
  (forall b, P (JBoolean b)) ->
  P JNull ->
  (forall tv, P (JDate tv)) ->
  (forall items, Forall P items -> P (JArray items)) ->
  P JUndefined ->
  forall value, P value.
Proof.
  intros Hs Hn Hb Hnull Hd Ha Hu.
  fix IH 1.
  intros [s | n | b | | tv | items |];
    [apply Hs | apply Hn | apply Hb | apply Hnull | apply Hd | | apply Hu].
  apply Ha.
  induction items as [| x items IHitems]; constructor; [apply IH | exact IHitems].
Qed.

Lemma mapM_ext {E A B} (f g : A -> outcome E B) (l : list A) :
  Forall (fun x => f x = g x) l -> mapM f l = mapM g l.
Proof.
  induction 1 as [| x l Hx _ IH]; simpl; [reflexivity |].
  rewrite Hx, IH. reflexivity.
Qed.

Lemma mapM_returns {E A B} (f : A -> outcome E B) (l : list A) :
  Forall (fun x => exists y, f x = Return y) l ->
  exists ys, mapM f l = Return ys.
Proof.
  induction 1 as [| x l [y Hy] _ [ys IH]]; simpl.
  - eexists; reflexivity.
  - rewrite Hy, IH. simpl. eexists; reflexivity.
Qed.

(** ** [toSQL] *)

Section ToSQLFacts.
Context {number : Type}.
Variable number_toString : number -> string.
Variable formatISO : Z -> string.
Variable template : jsvalue number -> string.

Local Abbreviation toSQL_if := (UtilTs.toSQL number_toString formatISO template).
Local Abbreviation toSQL_switch := (Part000.toSQL number_toString formatISO template).

Lemma toSQL_if_array (items : list (jsvalue number)) :
  toSQL_if (JArray items) =
  let* parts := mapM toSQL_if items in Return ("[" ++ join ", " parts ++ "]").
Proof. reflexivity. Qed.

Lemma toSQL_switch_array (items : list (jsvalue number)) :
  toSQL_switch (JArray items) =
  let* parts := mapM toSQL_switch items in Return ("[" ++ join ", " parts ++ "]").
Proof. reflexivity. Qed.

Lemma toSQL_switch_eq (value : jsvalue number) :
  toSQL_if value = toSQL_switch value.
Proof.
  induction value as [s | n | b | | tv | items IH |] using jsvalue_items_ind;
    try reflexivity.
  rewrite toSQL_if_array, toSQL_switch_array.
  rewrite (mapM_ext _ _ _ IH). reflexivity.
Qed.

Lemma toSQL_string (s : string) :
  toSQL_if (JString s) = Return ("'" ++ s ++ "'").
Proof. reflexivity. Qed.

Lemma toSQL_total (value : jsvalue number) :
  is_IntoSql value = true -> valid_dates value = true ->
  exists sql, toSQL_if value = Return sql.
Proof.
  induction value as [s | n | b | | tv | items IH |] using jsvalue_items_ind;
    intros Hty Hdates; try (eexists; reflexivity).
  - destruct tv as [t |]; [eexists; reflexivity | discriminate].
  - rewrite toSQL_if_array.
    simpl in Hty, Hdates.
    destruct (mapM_returns toSQL_if items) as [parts Hparts].
    + induction IH as [| x items Hx _ IHitems]; constructor;
        simpl in Hty, Hdates;
        apply andb_prop in Hty; apply andb_prop in Hdates;
        destruct Hty, Hdates; auto.
    + rewrite Hparts. eexists; reflexivity.
  - discriminate.
Qed.

(** C10 (amended).  For every string [s], [toSQL(s)] is a single quote,
    [s] verbatim, a single quote, nothing escaped, in both copies of the
    function; and [toSQL] returns a string, without throwing, on every
    [IntoSql] value all of whose Dates are valid. *)
Theorem toSQL_quotes_verbatim_and_total_on_valid_dates :
  (forall s : string,
      toSQL_if (JString s) = Return ("'" ++ s ++ "'") /\
      toSQL_switch (JString s) = Return ("'" ++ s ++ "'")) /\
  (forall value : jsvalue number,
      is_IntoSql value = true -> valid_dates value = true ->
      exists sql, toSQL_if value = Return sql /\ toSQL_switch value = Return sql).
Proof.
  split.
  - intros s. split; reflexivity.
  - intros value Hty Hdates.
    destruct (toSQL_total value Hty Hdates) as [sql Hsql].
    exists sql. split; [exact Hsql |].
    rewrite <- toSQL_switch_eq. exact Hsql.
Qed.
End ToSQLFacts.

Lemma toSQL_quotes_verbatim_and_total_witness :
  UtilTs.toSQL print_integer print_epoch print_undefined (JString "it's")
  = Return "'it's'" /\
  exists sql,
    UtilTs.toSQL print_integer print_epoch print_undefined
      (JArray [JNumber 42; JNull; JDate (Some 0); JArray [JBoolean true]])
    = Return sql /\
    Part000.toSQL print_integer print_epoch print_undefined
      (JArray [JNumber 42; JNull; JDate (Some 0); JArray [JBoolean true]])
    = Return sql.
Proof.
  split.
  - apply (toSQL_quotes_verbatim_and_total_on_valid_dates
             print_integer print_epoch print_undefined).
  - apply (toSQL_quotes_verbatim_and_total_on_valid_dates
             print_integer print_epoch print_undefined); reflexivity.
Defined.

(** C10, as stated, fails: an invalid Date is an [IntoSql] value, and on it
    [toISOString], hence [toSQL], throws a RangeError. *)
Lemma toSQL_invalid_date_throws :
  ~ (forall value : jsvalue Z,
        is_IntoSql value = true ->
        exists sql,
          UtilTs.toSQL print_integer print_epoch print_undefined value = Return sql).
Proof.
  intros Htotal.
  destruct (Htotal (JDate None) eq_refl) as [sql Hsql].
  discriminate Hsql.
Qed.

Example toSQL_nested_example :
  UtilTs.toSQL print_integer print_epoch print_undefined
    (JArray [JNumber 42; JNull; JDate (Some 0); JArray [JBoolean true; JString "a"]])
  = Return "[42, NULL, '1970-01-01T00:00:00.000Z', [TRUE, 'a']]".
Proof. reflexivity. Qed.

Example toSQL_undefined_example :
  UtilTs.toSQL print_integer print_epoch print_undefined JUndefined
  = Throw (Error "Unsupported value type: undefined value: (undefined)").
Proof. reflexivity. Qed.

(** ** [TTLCache] *)

Module TC := UtilTs.TTLCache.
Module TS := Part000.TTLCache.

Section CacheFacts.
Context {number : Type}.
Implicit Types (c : TC.t number) (e : TC.entry number) (v : jsvalue number).
Implicit Types (key k : string) (now : Z).

Lemma get_absent c now key :
  TC.cache c !! key = None -> TC.get now key c = (JUndefined, c).
Proof. intros H. unfold TC.get. rewrite H. reflexivity. Qed.

Lemma get_live c now key e :
  TC.cache c !! key = Some e -> now <= TC.expires e ->
  TC.get now key c = (TC.value e, c).
Proof.
  intros H Hnow. unfold TC.get. rewrite H.
  destruct (Z.ltb_spec (TC.expires e) now); [lia | reflexivity].
Qed.

Lemma get_expired c now key e :
  TC.cache c !! key = Some e -> TC.expires e < now ->
  TC.get now key c = (JUndefined, TC.delete key c).
Proof.
  intros H Hnow. unfold TC.get. rewrite H.
  destruct (Z.ltb_spec (TC.expires e) now); [reflexivity | lia].
Qed.

Lemma delete_lookup c key k :
  TC.cache (TC.delete key c) !! k
  = if decide (key = k) then None else TC.cache c !! k.
Proof.
  unfold TC.delete; simpl. destruct (decide (key = k)) as [-> | Hne].
  - apply lookup_delete_eq.
  - apply lookup_delete_ne, Hne.
Qed.

Lemma set_lookup c now key v k :
  TC.cache (TC.set now key v c) !! k
  = if decide (key = k)
    then Some {| TC.value := v; TC.expires := now + TC.ttl c |}
    else TC.cache c !! k.
Proof.
  unfold TC.set; simpl. destruct (decide (key = k)) as [-> | Hne].
  - apply lookup_insert_eq.
  - apply lookup_insert_ne, Hne.
Qed.

(** C3 (amended).  For a key with an entry, [get] returns the stored
    value and leaves the cache alone while the current time is not after
    the expiry time (the instant of expiry included); once the expiry time
    is strictly in the past, [get] removes that entry, and only that one,
    and reports a miss.  With [ttl = 100], [set("a", v)] at [0] gives [v]
    at [50] and a miss at [150], after which the entry is absent. *)
Theorem get_returns_until_expiry_then_evicts c now key e :
  TC.cache c !! key = Some e ->
  (now <= TC.expires e -> TC.get now key c = (TC.value e, c)) /\
  (TC.expires e < now ->
     fst (TC.get now key c) = JUndefined /\
     TC.cache (snd (TC.get now key c)) !! key = None /\
     (forall k, k <> key ->
        TC.cache (snd (TC.get now key c)) !! k = TC.cache c !! k)) /\
  (forall v,
     let c0 := TC.set 0 "a" v (TC.new 100) in
     TC.get 50 "a" c0 = (v, c0) /\
     fst (TC.get 150 "a" c0) = JUndefined /\
     TC.cache (snd (TC.get 150 "a" c0)) !! "a" = None).
Proof.
  intros He. split; [| split].
  - intros Hnow. apply (get_live _ _ _ _ He Hnow).
  - intros Hnow. rewrite (get_expired _ _ _ _ He Hnow). simpl.
    split; [reflexivity |]. split.
    + apply lookup_delete_eq.
    + intros k Hk. apply lookup_delete_ne. congruence.
  - intros v c0.
    assert (Ha : TC.cache c0 !! "a" = Some {| TC.value := v; TC.expires := 100 |}).
    { unfold c0. rewrite set_lookup. reflexivity. }
    split; [| split].
    + rewrite (get_live _ 50 _ _ Ha); [reflexivity | simpl; lia].
    + rewrite (get_expired _ 150 _ _ Ha); [reflexivity | simpl; lia].
    + rewrite (get_expired _ 150 _ _ Ha); [| simpl; lia].
      simpl. apply lookup_delete_eq.
Qed.

(** C6.  [set(k, v)] stores the entry [{v, now + ttl}] under [k], whatever
    was there (a live entry, an expired one, nothing), and touches no
    other key; a [get(k)] that follows before [ttl] has elapsed (up to
    and including the instant [now + ttl]) returns [v] and evicts
    nothing. *)
Theorem set_overwrites_and_get_returns c now now' key v :
  now' <= now + TC.ttl c ->
  TC.cache (TC.set now key v c) !! key
    = Some {| TC.value := v; TC.expires := now + TC.ttl c |} /\
  (forall k, k <> key -> TC.cache (TC.set now key v c) !! k = TC.cache c !! k) /\
  TC.get now' key (TC.set now key v c) = (v, TC.set now key v c).
Proof.
  intros Hnow.
  assert (Hk : TC.cache (TC.set now key v c) !! key
               = Some {| TC.value := v; TC.expires := now + TC.ttl c |}).
  { rewrite set_lookup. destruct (decide (key = key)); congruence. }
  split; [exact Hk |]. split.
  - intros k Hne. rewrite set_lookup.
    destruct (decide (key = k)); congruence.
  - rewrite (get_live _ _ _ _ Hk); [reflexivity | exact Hnow].
Qed.

(** C7.  [delete(k)] removes the entry of [k] at once, be it live,
    expired or absent: afterwards the entry is gone, [get(k)] reports a
    miss at any time, and the entries of all other keys are as before. *)
Theorem delete_removes_only_that_key c now key :
  TC.cache (TC.delete key c) !! key = None /\
  TC.get now key (TC.delete key c) = (JUndefined, TC.delete key c) /\
  (forall k, k <> key -> TC.cache (TC.delete key c) !! k = TC.cache c !! k) /\
  TC.ttl (TC.delete key c) = TC.ttl c.
Proof.
  assert (Hk : TC.cache (TC.delete key c) !! key = None).
  { rewrite delete_lookup. destruct (decide (key = key)); congruence. }
  split; [exact Hk |]. split; [apply get_absent, Hk |]. split.
  - intros k Hne. rewrite delete_lookup.
    destruct (decide (key = k)); congruence.
  - reflexivity.
Qed.

(** *** The two copies of the class *)

Lemma as_Part000_lookup c key :
  TS.cache (as_Part000 c) !! key
  = (fun e => {| TS.value := TC.value e; TS.expires := TC.expires e |})
    <$> TC.cache c !! key.
Proof. unfold as_Part000; simpl. apply lookup_fmap. Qed.

Lemma step_as_Part000 now (op : cache_op number) c :
  TS.step now op (as_Part000 c)
  = (fst (TC.step now op c), as_Part000 (snd (TC.step now op c))).
Proof.
  destruct op as [key | key v | key]; simpl.
  - unfold TS.get, TC.get. rewrite as_Part000_lookup.
    destruct (TC.cache c !! key) as [e |]; simpl; [| reflexivity].
    destruct (TC.expires e <? now); simpl; [| reflexivity].
    unfold as_Part000; simpl. rewrite fmap_delete. reflexivity.
  - unfold TS.set, TC.set, as_Part000; simpl. rewrite fmap_insert. reflexivity.
  - unfold TS.delete, TC.delete, as_Part000; simpl. rewrite fmap_delete. reflexivity.
Qed.

Lemma run_as_Part000 (ops : list (Z * cache_op number)) c :
  TS.run ops (as_Part000 c)
  = (fst (TC.run ops c), as_Part000 (snd (TC.run ops c))).
Proof.
  revert c. induction ops as [| [now op] ops IH]; intros c; simpl.
  - reflexivity.
  - rewrite step_as_Part000.
    destruct (TC.step now op c) as [out c']; simpl.
    rewrite IH. destruct (TC.run ops c') as [outs final]; reflexivity.
Qed.
End CacheFacts.

Lemma as_Part000_inj {number : Type} (c c' : TC.t number) :
  as_Part000 c = as_Part000 c' -> c = c'.
Proof.
  destruct c as [ttl m], c' as [ttl' m']. unfold as_Part000; simpl.
  intros H. injection H as Httl Hm. subst ttl'. f_equal.
  apply map_eq. intros key.
  apply (f_equal (fun x => x !! key)) in Hm.
  rewrite !lookup_fmap in Hm.
  destruct (m !! key) as [[v x] |], (m' !! key) as [[v' x'] |];
    simpl in Hm; congruence.
Qed.

(** C9.  The switch copy and the if-chain copy are extensionally equal:
    the two [toSQL] return the same string or throw the same exception on
    every value, and from the same object the two [TTLCache] classes give,
    for every sequence of [get]/[set]/[delete] calls at the same times, the
    same returned values and the same final state (read through
    [as_Part000], which loses nothing). *)
Theorem switch_and_if_chain_copies_agree {number : Type}
    (number_toString : number -> string) (formatISO : Z -> string)
    (template : jsvalue number -> string) :
  (forall value : jsvalue number,
      UtilTs.toSQL number_toString formatISO template value
      = Part000.toSQL number_toString formatISO template value) /\
  (forall ttl : Z, as_Part000 (TC.new (number := number) ttl) = TS.new ttl) /\
  (forall (ops : list (Z * cache_op number)) (c : TC.t number),
      fst (TS.run ops (as_Part000 c)) = fst (TC.run ops c) /\
      snd (TS.run ops (as_Part000 c)) = as_Part000 (snd (TC.run ops c))) /\
  (forall c c' : TC.t number, as_Part000 c = as_Part000 c' <-> c = c').
Proof.
  split; [| split; [| split]].
  - apply toSQL_switch_eq.
  - intros ttl. unfold as_Part000, TC.new, TS.new; simpl.
    rewrite fmap_empty. reflexivity.
  - intros ops c. rewrite run_as_Part000. split; reflexivity.
  - intros c c'. split; [apply as_Part000_inj | intros ->; reflexivity].
Qed.

Lemma get_returns_until_expiry_then_evicts_witness :
  let c := TC.set 0 "a" (JNumber 1) (TC.new (number := Z) 100) in
  TC.get 100 "a" c = (JNumber 1, c) /\
  fst (TC.get 101 "a" c) = JUndefined /\
  TC.cache (snd (TC.get 101 "a" c)) !! "a" = None.
Proof.
  intros c.
  assert (He : TC.cache c !! "a" = Some {| TC.value := JNumber 1; TC.expires := 100 |})
    by reflexivity.
  destruct (get_returns_until_expiry_then_evicts c 100 "a" _ He) as [Hlive _].
  destruct (get_returns_until_expiry_then_evicts c 101 "a" _ He) as [_ [Hgone _]].
  split; [apply Hlive; simpl; lia |].
  destruct Hgone as [Hmiss [Habsent _]]; [simpl; lia |].
  split; [exact Hmiss | exact Habsent].
Defined.

(** C3, as stated, fails at the instant of expiry: with [ttl = 100],
    [set("a", 1)] at [0] and [get("a")] at [100], the current time is not
    strictly before the expiry time, yet [get] returns the stored value and
    the entry stays in the cache. *)
Lemma get_at_expiry_instant_still_hits :
  let c := TC.set 0 "a" (JNumber 1) (TC.new (number := Z) 100) in
  TC.cache c !! "a" = Some {| TC.value := JNumber 1; TC.expires := 100 |} /\
  ~ (100 < 100) /\
  fst (TC.get 100 "a" c) = JNumber 1 /\
  fst (TC.get 100 "a" c) <> JUndefined /\
  TC.cache (snd (TC.get 100 "a" c)) !! "a" <> None.
Proof.
  simpl. split; [reflexivity |]. split; [lia |].
  split; [reflexivity |]. split; [discriminate |].
  vm_compute. discriminate.
Qed.

Lemma set_overwrites_and_get_returns_witness :
  let expired := TC.set 0 "a" (JString "old") (TC.new (number := Z) 100) in
  TC.get 500 "a" expired = (JUndefined, TC.delete "a" expired) /\
  TC.get 560 "a" (TC.set 500 "a" (JNumber 7) expired)
  = (JNumber 7, TC.set 500 "a" (JNumber 7) expired).
Proof.
  intros expired. split.
  - apply (get_expired expired 500 "a" {| TC.value := JString "old"; TC.expires := 100 |});
      [reflexivity | simpl; lia].
  - apply (set_overwrites_and_get_returns expired 500 560 "a" (JNumber 7)).
    simpl. lia.
Defined.

Lemma delete_removes_only_that_key_witness :
  let c := TC.set 5 "b" (JNumber 2) (TC.set 0 "a" (JNumber 1) (TC.new (number := Z) 100)) in
  TC.get 10 "a" (TC.delete "a" c) = (JUndefined, TC.delete "a" c) /\
  TC.cache (TC.delete "a" c) !! "b" = TC.cache c !! "b".
Proof.
  intros c.
  destruct (delete_removes_only_that_key c 10 "a") as [_ [Hmiss [Hother _]]].
  split; [exact Hmiss |].
  apply Hother. discriminate.
Defined.

(** ** [convertToTable] *)

Section ConvertToTableFacts.
Context {number : Type} `{ArrowLibrary : !Arrow.Library number}.
Implicit Types (datum first : Arrow.record number) (data rest : list (Arrow.record number)).
Implicit Types (records : Arrow.Table number) (columns : list string).

Lemma get_prop_keys datum key :
  Arrow.get_prop datum key <> JUndefined -> In key (Arrow.keys datum).
Proof.
  induction datum as [| [k v] datum IH]; simpl; [congruence |].
  destruct (String.eqb_spec k key) as [-> | Hne]; auto.
Qed.

Lemma vector_length_keys datum n :
  Arrow.vector_length datum = Some n -> In "vector" (Arrow.keys datum).
Proof.
  unfold Arrow.vector_length. intros H. apply get_prop_keys.
  destruct (Arrow.get_prop datum "vector"); congruence.
Qed.

Lemma vector_length_of datum n :
  Arrow.vector_length datum = Some n ->
  Arrow.length_of (Arrow.get_prop datum "vector") = Return (Some n).
Proof.
  unfold Arrow.vector_length.
  destruct (Arrow.get_prop datum "vector"); simpl; congruence.
Qed.

Lemma strict_ne_same n : Arrow.strict_ne (Some n) (Some n) = false.
Proof. simpl. rewrite Nat.eqb_refl. reflexivity. Qed.

Lemma strict_ne_other n m : m <> n -> Arrow.strict_ne (Some m) (Some n) = true.
Proof. intros H. simpl. apply Nat.eqb_neq in H. rewrite H. reflexivity. Qed.

Lemma accepts_vectors_append n data datum (appended : list (jsvalue number)) :
  Arrow.accepts_vectors n data -> In datum data ->
  Arrow.vector_length datum = Some n ->
  Arrow.append appended (Arrow.get_prop datum "vector")
  = Return (appended ++ [Arrow.get_prop datum "vector"])%list.
Proof.
  intros Hacc Hin Hlen. specialize (Hacc appended datum Hin).
  unfold Arrow.vector_length in Hlen. unfold Arrow.append.
  destruct (Arrow.get_prop datum "vector") as [| | | | | items |];
    try discriminate.
  rewrite Hacc; [reflexivity | congruence].
Qed.

Lemma accepts_vectors_tail n datum data :
  Arrow.accepts_vectors n (datum :: data) -> Arrow.accepts_vectors n data.
Proof. intros Hacc appended d Hd. apply Hacc. right. exact Hd. Qed.

(** The inner loop on vectors of the expected size appends every one. *)
Lemma append_vectors_uniform n data (appended : list (jsvalue number)) :
  Forall (fun datum => Arrow.vector_length datum = Some n) data ->
  Arrow.accepts_vectors n data ->
  Arrow.append_vectors "vector" (Some n) data appended
  = Return (appended ++ List.map (fun datum => Arrow.get_prop datum "vector") data)%list.
Proof.
  intros Hall. revert appended.
  induction Hall as [| datum data Hd _ IH]; intros appended Hacc; simpl.
  - rewrite app_nil_r. reflexivity.
  - rewrite (vector_length_of _ _ Hd). simpl. rewrite Nat.eqb_refl. simpl.
    rewrite (accepts_vectors_append n (datum :: data) datum appended Hacc
               (or_introl eq_refl) Hd).
    simpl. rewrite IH by (apply (accepts_vectors_tail _ _ _ Hacc)).
    rewrite <- app_assoc. reflexivity.
Qed.

(** The inner loop throws at the first vector of another size. *)
Lemma append_vectors_mismatch n data (appended : list (jsvalue number)) :
  Forall (fun datum => Arrow.vector_length datum <> None) data ->
  Exists (fun datum => Arrow.vector_length datum <> Some n) data ->
  Arrow.accepts_vectors n data ->
  Arrow.append_vectors "vector" (Some n) data appended
  = Throw (Error ("Invalid vector size, expected " ++ Arrow.show_length (Some n))).
Proof.
  intros Hall. revert appended.
  induction Hall as [| datum data Hd _ IH]; intros appended Hex Hacc.
  - inversion Hex.
  - simpl. destruct (Arrow.vector_length datum) as [m |] eqn:Hm; [| congruence].
    rewrite (vector_length_of _ _ Hm). cbn [bind].
    destruct (Nat.eq_dec m n) as [-> | Hne].
    + rewrite strict_ne_same.
      rewrite (accepts_vectors_append n (datum :: data) datum appended Hacc
                 (or_introl eq_refl) Hm).
      cbn [bind]. apply IH; [| apply (accepts_vectors_tail _ _ _ Hacc)].
      inversion Hex as [? ? Hhead | ? ? Htail]; subst; [congruence | exact Htail].
    + rewrite (strict_ne_other _ _ Hne). reflexivity.
Qed.

Lemma build_columns_mismatch data first n columns records :
  Arrow.vector_length first = Some n ->
  Forall (fun datum => Arrow.vector_length datum <> None) data ->
  Exists (fun datum => Arrow.vector_length datum <> Some n) data ->
  Arrow.accepts_vectors n data ->
  Arrow.accepts data (Arrow.left_of_vector columns) ->
  In "vector" columns ->
  Arrow.build_columns data first columns records
  = Throw (Error ("Invalid vector size, expected " ++ Arrow.show_length (Some n))).
Proof.
  intros Hfirst Hall Hex Hvectors. revert records.
  induction columns as [| key columns IH]; intros records Hacc Hin; [inversion Hin |].
  simpl in Hacc |- *. destruct (String.eqb_spec key "vector") as [-> | Hne].
  - rewrite (vector_length_of _ _ Hfirst). cbn [bind].
    rewrite (append_vectors_mismatch n data [] Hall Hex Hvectors). reflexivity.
  - pose proof (Hacc key (or_introl eq_refl)) as Hkey.
    destruct (String.eqb_spec key "vector"); [congruence |].
    unfold Arrow.vectorFromArray. rewrite Hkey. cbn [Arrow.guard bind].
    apply IH.
    + intros k Hk. apply Hacc. right. exact Hk.
    + destruct Hin as [Heq | Hin]; [congruence | exact Hin].
Qed.

Lemma assign_fresh records key (v : Arrow.Vector number) :
  ~ In key (List.map fst records) -> Arrow.assign records key v = (records ++ [(key, v)])%list.
Proof.
  induction records as [| [k old] records IH]; simpl; intros Hfresh; [reflexivity |].
  destruct (String.eqb_spec k key) as [-> | Hne]; [tauto |].
  rewrite IH; [reflexivity | tauto].
Qed.

Lemma build_columns_uniform data first columns records :
  (In "vector" columns ->
   exists n, Forall (fun datum => Arrow.vector_length datum = Some n) (first :: data)) ->
  Arrow.accepts data columns ->
  List.NoDup (List.map fst records ++ columns)%list ->
  Arrow.build_columns data first columns records
  = Return (records ++ List.map (fun key => (key, Arrow.column_of data key)) columns)%list.
Proof.
  revert records.
  induction columns as [| key columns IH]; intros records Hvec Hacc Hnodup; simpl.
  - rewrite app_nil_r. reflexivity.
  - assert (Hfresh : ~ In key (List.map fst records)).
    { intros Hin. apply List.NoDup_remove_2 in Hnodup. apply Hnodup.
      apply in_or_app. left. exact Hin. }
    assert (Hnext : forall v : Arrow.Vector number,
               List.NoDup (List.map fst (records ++ [(key, v)]) ++ columns)%list).
    { intros v. rewrite List.map_app, <- app_assoc. exact Hnodup. }
    assert (Hrest : Arrow.accepts data columns).
    { intros k Hk. apply Hacc. right. exact Hk. }
    pose proof (Hacc key (or_introl eq_refl)) as Hkey.
    unfold Arrow.column_of at 1.
    destruct (String.eqb_spec key "vector") as [-> | Hne].
    + destruct Hvec as [n Hall]; [left; reflexivity |].
      destruct Hkey as [Happend Hfinish].
      inversion Hall as [| ? ? Hfirst Hdata]; subst.
      rewrite (vector_length_of _ _ Hfirst). cbn [bind].
      rewrite (append_vectors_uniform n data [] Hdata).
      2:{ intros appended d Hd. rewrite (Happend appended d Hd).
          destruct (Arrow.get_prop d "vector"); auto. }
      cbn [bind app]. unfold Arrow.finish. rewrite Hfinish. cbn [Arrow.guard bind].
      rewrite assign_fresh by exact Hfresh.
      rewrite IH; [rewrite <- app_assoc; reflexivity | | exact Hrest | apply Hnext].
      intros Hin. exists n. exact Hall.
    + unfold Arrow.vectorFromArray. rewrite Hkey. cbn [Arrow.guard bind].
      rewrite assign_fresh by exact Hfresh.
      rewrite IH; [rewrite <- app_assoc; reflexivity | | exact Hrest | apply Hnext].
      intros Hin. apply Hvec. right. exact Hin.
Qed.

(** C8 (amended).  [convertToTable] throws 'At least one record needs to
    be provided' on the empty array.  On records that each carry a [vector]
    array, it throws 'Invalid vector size' whenever some record's vector
    has another length than the first record's, provided the Arrow library
    takes the columns built before the [vector] column and the vectors of
    the first record's length.  On a non-empty array of records that each
    carry a [vector] array of the first record's vector length (or whose
    first record has no [vector] key), whose columns and whose table the
    Arrow library takes, it returns a table with one column per key of the
    first record, in key order, holding that key's value of every
    record. *)
Theorem convertToTable_errors_and_columns :
  Arrow.convertToTable (number := number) []
  = Throw (Error "At least one record needs to be provided") /\
  (forall first rest n,
      Arrow.vector_length first = Some n ->
      Forall (fun datum => Arrow.vector_length datum <> None) (first :: rest) ->
      Exists (fun datum => Arrow.vector_length datum <> Some n) (first :: rest) ->
      Arrow.accepts (first :: rest) (Arrow.left_of_vector (Arrow.keys first)) ->
      Arrow.accepts_vectors n (first :: rest) ->
      Arrow.convertToTable (first :: rest)
      = Throw (Error ("Invalid vector size, expected "
                      ++ NilEmpty.string_of_uint (Nat.to_uint n)))) /\
  (forall first rest,
      List.NoDup (Arrow.keys first) ->
      (In "vector" (Arrow.keys first) ->
       exists n, Forall (fun datum => Arrow.vector_length datum = Some n) (first :: rest)) ->
      Arrow.accepts (first :: rest) (Arrow.keys first) ->
      Arrow.Table_throws
        (List.map (fun key => (key, Arrow.column_of (first :: rest) key))
           (Arrow.keys first)) = None ->
      exists table,
        Arrow.convertToTable (first :: rest) = Return table /\
        List.map fst table = Arrow.keys first /\
        table = List.map (fun key => (key, Arrow.column_of (first :: rest) key))
                  (Arrow.keys first)).
Proof.
  split; [reflexivity |]. split.
  - intros first rest n Hfirst Hall Hex Hleft Hvectors. unfold Arrow.convertToTable.
    rewrite (build_columns_mismatch _ _ n); auto.
    apply (vector_length_keys _ _ Hfirst).
  - intros first rest Hnodup Hvec Hacc Htable.
    eexists. split; [| split; [| reflexivity]].
    + unfold Arrow.convertToTable.
      rewrite build_columns_uniform; [| | exact Hacc | exact Hnodup].
      * cbn [bind app]. unfold Arrow.new_Table. rewrite Htable. reflexivity.
      * intros Hin. destruct (Hvec Hin) as [n Hall]. exists n.
        constructor; [| exact Hall].
        inversion Hall; assumption.
    + rewrite List.map_map. simpl. apply List.map_id.
Qed.
End ConvertToTableFacts.

Lemma convertToTable_errors_and_columns_witness :
  let r1 : Arrow.record Z :=
    [("id", JNumber 1); ("vector", JArray [JNumber 1; JNumber 2]); ("price", JNumber 10)] in
  let r2 : Arrow.record Z :=
    [("id", JNumber 2); ("vector", JArray [JNumber 11; JNumber 12]); ("price", JNumber 50)] in
  let short : Arrow.record Z :=
    [("id", JNumber 3); ("vector", JArray [JNumber 5]); ("price", JNumber 7)] in
  Arrow.convertToTable [r1; r2; short]
  = Throw (Error "Invalid vector size, expected 2") /\
  exists table,
    Arrow.convertToTable [r1; r2] = Return table /\
    List.map fst table = ["id"; "vector"; "price"].
Proof.
  intros r1 r2 short.
  destruct (convertToTable_errors_and_columns (number := Z)) as [_ [Hbad Hgood]].
  split.
  - apply (Hbad r1 [r2; short] 2%nat).
    + reflexivity.
    + repeat constructor; discriminate.
    + right. right. left. discriminate.
    + intros key [<- | []]. reflexivity.
    + intros appended datum Hin.
      destruct (Arrow.get_prop datum "vector"); auto.
  - destruct (Hgood r1 [r2]) as [table [Hret [Hkeys _]]].
    + repeat (constructor; [simpl; intuition discriminate |]). constructor.
    + intros _. exists 2%nat. repeat constructor.
    + intros key [<- | [<- | [<- | []]]]; simpl; auto.
    + reflexivity.
    + exists table. split; [exact Hret | exact Hkeys].
Defined.

Example convertToTable_example :
  Arrow.convertToTable (number := Z)
    [ [("id", JNumber 1); ("vector", JArray [JNumber 1; JNumber 2])];
      [("id", JNumber 2); ("vector", JArray [JNumber 3; JNumber 4])] ]
  = Return
      [ ("id", Arrow.ArrayVector [JNumber 1; JNumber 2]);
        ("vector", Arrow.ListVector [JArray [JNumber 1; JNumber 2];
                                     JArray [JNumber 3; JNumber 4]]) ].
Proof. reflexivity. Qed.

(** C8, as stated, fails in two ways.  On records that do not all carry
    the field, a record without [vector] stops the vector column with the
    TypeError of reading [length] off [undefined], before the record of
    another vector length is reached, and also when every vector there is
    has the first record's length.  And with an Arrow library that throws
    a TypeError on a column of mixed types, as [vectorFromArray] does, a
    mixed column makes the function throw that TypeError where the claim
    promises a table, and where it promises 'Invalid vector size' when the
    mixed column is built before the [vector] column. *)
Lemma convertToTable_missing_vector_is_TypeError :
  let first : Arrow.record Z := [("vector", JArray [JNumber 1])] in
  let bare : Arrow.record Z := [("id", JNumber 2)] in
  let longer : Arrow.record Z := [("vector", JArray [JNumber 1; JNumber 2])] in
  Arrow.vector_length first = Some 1%nat /\
  Arrow.vector_length bare = None /\
  Arrow.vector_length longer = Some 2%nat /\
  Arrow.convertToTable [first; bare; longer] = Throw TypeError /\
  Arrow.convertToTable [first; bare; longer]
  <> Throw (Error "Invalid vector size, expected 1") /\
  Arrow.convertToTable [first; bare] = Throw TypeError /\
  Arrow.convertToTable (number := Z) [ [("id", JNumber 1)]; [("id", JString "a")] ]
  = Throw TypeError /\
  Arrow.convertToTable (number := Z)
    [ [("id", JNumber 1); ("vector", JArray [JNumber 1])];
      [("id", JString "a"); ("vector", JArray [JNumber 1; JNumber 2])] ]
  = Throw TypeError.
Proof.
  intros first bare longer.
  repeat split; try reflexivity. discriminate.
Qed.

(** ** Query builder *)

Section BuilderFacts.
Import Hybrid.
Implicit Types (r start : SearchRequest) (calls : list call).

Lemma build_cons start (c : call) calls :
  build start (c :: calls) = build (accumulate start c) calls.
Proof. reflexivity. Qed.

(** The limit of a chain is positive when every [limit(n)] in it has
    [n > 0] and either the builder started positive or the chain calls
    [limit]. *)
Lemma build_limit_positive calls : forall start,
  (forall n, In (CLimit n) calls -> 0 < n) ->
  (0 < limit start \/ exists n, In (CLimit n) calls) ->
  0 < limit (build start calls).
Proof.
  induction calls as [| c calls IH]; intros start Hpos Hset.
  - destruct Hset as [H | [n []]]. exact H.
  - rewrite build_cons. apply IH.
    + intros n Hn. apply Hpos. right. exact Hn.
    + destruct c; simpl;
        try (destruct Hset as [H | [m [Hm | Hm]]];
             [left; exact H | discriminate Hm | right; exists m; exact Hm]).
      left. apply Hpos. left. reflexivity.
Qed.

Lemma build_vector_set calls : forall start,
  (vectorQuery start <> None \/ exists q, In (CVector q) calls) ->
  vectorQuery (build start calls) <> None.
Proof.
  induction calls as [| c calls IH]; intros start Hset.
  - destruct Hset as [H | [q []]]. exact H.
  - rewrite build_cons. apply IH.
    destruct c; simpl;
      try (destruct Hset as [H | [q' [Hq | Hq]]];
           [left; exact H | discriminate Hq | right; exists q'; exact Hq]).
    left. discriminate.
Qed.

Lemma build_text_set calls : forall start,
  (textQuery start <> None \/ exists t, In (CFullTextSearch t) calls) ->
  textQuery (build start calls) <> None.
Proof.
  induction calls as [| c calls IH]; intros start Hset.
  - destruct Hset as [H | [t []]]. exact H.
  - rewrite build_cons. apply IH.
    destruct c; simpl;
      try (destruct Hset as [H | [t' [Ht | Ht]]];
           [left; exact H | discriminate Ht | right; exists t'; exact Ht]).
    left. discriminate.
Qed.

Lemma build_no_reranker calls : forall start,
  reranker start = None -> (forall s, ~ In (CRerank s) calls) ->
  reranker (build start calls) = None.
Proof.
  induction calls as [| c calls IH]; intros start Hnone Hcalls; [exact Hnone |].
  rewrite build_cons. apply IH.
  - destruct c; simpl; try exact Hnone.
    exfalso. apply (Hcalls strategy). left. reflexivity.
  - intros s Hs. apply (Hcalls s). right. exact Hs.
Qed.

Lemma validate_spec r :
  validate r = None <->
  0 < limit r /\ (reranker r = None \/ vectorQuery r <> None \/ textQuery r <> None).
Proof.
  unfold validate. destruct (Z.leb_spec (limit r) 0) as [Hle | Hgt].
  - split; [discriminate | intros [H _]; lia].
  - destruct (reranker r), (vectorQuery r), (textQuery r);
      split; intros H; try reflexivity; try discriminate;
      try (split; [exact Hgt |]; auto; right; auto; (left + right); discriminate).
    destruct H as [_ [H | [H | H]]]; congruence.
Qed.
End BuilderFacts.

(** ** Executor: validation *)

Section ValidationFacts.
Import Hybrid.
Variable primaryKey : option (list string).
Variable vectorSearch :
  list Q -> option string -> bool -> option Z -> option Z -> Z ->
  outcome native_failure (list RawResult).
Variable fullTextSearch :
  string -> option string -> bool -> Z -> outcome native_failure (list RawResult).

Local Abbreviation run_merge := (merge primaryKey vectorSearch fullTextSearch).
Local Abbreviation run_query := (execute primaryKey vectorSearch fullTextSearch).

Lemma lift_never_validation {A B} (m : outcome native_failure A)
    (k : A -> outcome failure B) :
  (forall a, fails_validation (k a) = false) ->
  fails_validation (let* a := lift m in k a) = false.
Proof. intros Hk. destruct m as [a | []]; simpl; [apply Hk | reflexivity ..]. Qed.

Lemma checked_never_validation (inputs output : list row) :
  fails_validation (checked primaryKey inputs output) = false.
Proof. unfold checked. destruct (contract_ok _ _ _); reflexivity. Qed.

(** Past validation nothing raises a ValidationError: native failures are
    Provider or Schema errors, a bad reranker result is a contract
    violation. *)
Lemma merge_never_validation (r : SearchRequest) :
  fails_validation (run_merge r) = false.
Proof.
  unfold merge.
  destruct (vectorQuery r) as [q |], (textQuery r) as [text |].
  - apply lift_never_validation; intros vraw.
    apply lift_never_validation; intros fraw. cbv zeta.
    destruct (reranker r) as [[rv rf [f |]] |];
      try apply checked_never_validation; reflexivity.
  - apply lift_never_validation; intros raw.
    destruct (reranker r) as [[[f |] rf rh] |];
      try apply checked_never_validation; reflexivity.
  - apply lift_never_validation; intros raw.
    destruct (reranker r) as [[rv [f |] rh] |];
      try apply checked_never_validation; reflexivity.
  - reflexivity.
Qed.

Lemma execute_validated (r : SearchRequest) :
  validate r = None -> fails_validation (run_query r) = false.
Proof.
  intros Hvalid. unfold execute. rewrite Hvalid.
  pose proof (merge_never_validation r) as Hmerge.
  destruct (run_merge r) as [merged | e]; [reflexivity | exact Hmerge].
Qed.

Lemma execute_rejected (r : SearchRequest) :
  validate r <> None -> fails_validation (run_query r) = true.
Proof.
  unfold execute, validate.
  destruct (limit r <=? 0); [reflexivity |].
  destruct (reranker r), (vectorQuery r), (textQuery r);
    intros H; try reflexivity; exfalso; apply H; reflexivity.
Qed.

(** C5.  [execute()] fails with a ValidationError exactly when
    [limit <= 0], or a reranker is set and neither a vector query nor a
    text query is configured.  The builder calls themselves never fail, so
    a chain of calls in any order whose [limit] calls are all positive
    (the limit being set by the chain or positive from the start) and which
    configures at least one search mode (or sets no reranker) does not
    raise a ValidationError. *)
Theorem execute_validation_conditions :
  (forall r : SearchRequest,
      fails_validation (run_query r) = true <->
      (limit r <= 0 \/
       (reranker r <> None /\ vectorQuery r = None /\ textQuery r = None))) /\
  (forall (start : SearchRequest) (calls calls' : list call),
      Permutation calls calls' ->
      (forall n, In (CLimit n) calls -> 0 < n) ->
      (0 < limit start \/ exists n, In (CLimit n) calls) ->
      ((exists q, In (CVector q) calls) \/
       (exists text, In (CFullTextSearch text) calls) \/
       (reranker start = None /\ forall s, ~ In (CRerank s) calls)) ->
      fails_validation (run_query (build start calls')) = false).
Proof.
  split.
  - intros r. split.
    + intros Hfails.
      destruct (Z.leb_spec (limit r) 0) as [Hle | Hgt]; [left; exact Hle | right].
      destruct (reranker r) as [s |] eqn:Hr, (vectorQuery r) as [q |] eqn:Hq,
               (textQuery r) as [t |] eqn:Ht;
        try (split; [discriminate | split; reflexivity]);
        rewrite execute_validated in Hfails; try discriminate Hfails;
        apply validate_spec; rewrite Hr, Hq, Ht;
        (split; [exact Hgt |]); auto; right; (left + right); discriminate.
    + intros Hbad. apply execute_rejected. intros Hvalid.
      apply validate_spec in Hvalid. destruct Hvalid as [Hgt Hmode].
      destruct Hbad as [Hle | [Hr [Hq Ht]]]; [lia |].
      destruct Hmode as [H | [H | H]]; congruence.
  - intros start calls calls' Hperm Hpos Hlimit Hmode.
    apply execute_validated, validate_spec. split.
    + apply build_limit_positive.
      * intros n Hn. apply Hpos.
        apply (Permutation_in _ (Permutation_sym Hperm) Hn).
      * destruct Hlimit as [H | [n Hn]]; [left; exact H | right; exists n].
        apply (Permutation_in _ Hperm Hn).
    + destruct Hmode as [[q Hq] | [[text Ht] | [Hnone Hcalls]]].
      * right; left. apply build_vector_set. right. exists q.
        apply (Permutation_in _ Hperm Hq).
      * right; right. apply build_text_set. right. exists text.
        apply (Permutation_in _ Hperm Ht).
      * left. apply build_no_reranker; [exact Hnone |].
        intros s Hs. apply (Hcalls s).
        apply (Permutation_in _ (Permutation_sym Hperm) Hs).
Qed.
End ValidationFacts.

Lemma execute_validation_conditions_witness :
  Hybrid.fails_validation
    (Hybrid.execute None RerankersTest.vectorSearch RerankersTest.fullTextSearch
       (Hybrid.build (Hybrid.query 10 true)
          [ Hybrid.CLimit 5;
            Hybrid.CSelect ["text"];
            Hybrid.CRerank RerankersTest.MyCustomReranker;
            Hybrid.CFullTextSearch "dog";
            Hybrid.CVector [1 # 10; 1 # 10] ]))
  = false.
Proof.
  apply (proj2 (execute_validation_conditions None RerankersTest.vectorSearch
                  RerankersTest.fullTextSearch)
           (Hybrid.query 10 true) RerankersTest.calls).
  - apply (Permutation_rev RerankersTest.calls).
  - intros n [Hn | [Hn | [Hn | [Hn | [Hn | []]]]]]; inversion Hn. lia.
  - right. exists 5. simpl. tauto.
  - left. exists [1 # 10; 1 # 10]. left. reflexivity.
Defined.

Example execute_rejects_limit_zero :
  Hybrid.execute None RerankersTest.vectorSearch RerankersTest.fullTextSearch
    (Hybrid.build (Hybrid.query 10 true)
       [Hybrid.CVector [1 # 10; 1 # 10]; Hybrid.CLimit 0])
  = Throw (Hybrid.ValidationError "limit must be positive").
Proof. reflexivity. Qed.

Example execute_rejects_reranker_alone :
  Hybrid.execute None RerankersTest.vectorSearch RerankersTest.fullTextSearch
    (Hybrid.build (Hybrid.query 10 true)
       [Hybrid.CRerank RerankersTest.MyCustomReranker; Hybrid.CLimit 5])
  = Throw (Hybrid.ValidationError "reranker without search criteria").
Proof. reflexivity. Qed.

(** ** Executor: the post-merge step *)

Section PostMergeFacts.
Import Hybrid.
Implicit Types (r a b : row) (l rows : list row) (c : string).



Lemma insert_by_In {A} (precedes : A -> A -> bool) (x z : A) (l : list A) :
  In z (insert_by precedes x l) <-> z = x \/ In z l.
Proof.
  induction l as [| y l IH]; simpl.
  - intuition congruence.
  - destruct (precedes y x); simpl; [rewrite IH |]; intuition congruence.
Qed.

Lemma sort_by_In {A} (precedes : A -> A -> bool) (z : A) (l : list A) :
  In z (sort_by precedes l) <-> In z l.
Proof.
  induction l as [| x l IH]; simpl; [reflexivity |].
  rewrite insert_by_In, IH. intuition congruence.
Qed.

Lemma insert_by_length {A} (precedes : A -> A -> bool) (x : A) (l : list A) :
  List.length (insert_by precedes x l) = S (List.length l).
Proof.
  induction l as [| y l IH]; simpl; [reflexivity |].
  destruct (precedes y x); simpl; [rewrite IH |]; reflexivity.
Qed.

Lemma sort_by_length {A} (precedes : A -> A -> bool) (l : list A) :
  List.length (sort_by precedes l) = List.length l.
Proof.
  induction l as [| x l IH]; simpl; [reflexivity |].
  rewrite insert_by_length, IH. reflexivity.
Qed.





End PostMergeFacts.

Section ExecutorFacts.
Import Hybrid.
Variable primaryKey : option (list string).
Variable vectorSearch :
  list Q -> option string -> bool -> option Z -> option Z -> Z ->
  outcome native_failure (list RawResult).
Variable fullTextSearch :
  string -> option string -> bool -> Z -> outcome native_failure (list RawResult).
Implicit Types (r : SearchRequest) (x y : row) (rows merged : list row) (c : string).

Local Abbreviation run_merge := (merge primaryKey vectorSearch fullTextSearch).
Local Abbreviation run_query := (execute primaryKey vectorSearch fullTextSearch).

Lemma column_set_column c (v : jsvalue Q) x : column c (set_column c v x) = Some v.
Proof.
  induction x as [| [k old] x IH]; simpl.
  - rewrite String.eqb_refl. reflexivity.
  - destruct (String.eqb_spec k c) as [-> | Hne]; simpl.
    + rewrite String.eqb_refl. reflexivity.
    + destruct (String.eqb_spec k c); [congruence | exact IH].
Qed.

Lemma relevance_set_relevance (q : Q) x : relevance (set_relevance q x) = Some q.
Proof. unfold relevance, set_relevance. rewrite column_set_column. reflexivity. Qed.

Lemma column_In c x : column c x <> None -> In c (columns_of x).
Proof.
  induction x as [| [k v] x IH]; simpl; [congruence |].
  destruct (String.eqb_spec k c) as [-> | Hne]; auto.
Qed.



















End ExecutorFacts.





(** ** Reciprocal Rank Fusion *)

Section RRFFacts.
Import Hybrid.
Variable primaryKey : option (list string).
Implicit Types (x y z : row) (L vec fts : list row) (k n : nat).

Local Abbreviation same := (same_row primaryKey).
Local Abbreviation rank_in := (rank primaryKey).

(** [rank_from first] numbers the positions from [first] and gives the
    first position whose row is the given one. *)
Lemma rank_from_spec L : forall first y,
  match rank_from primaryKey first y L with
  | Some n =>
      exists i z, n = (first + i)%nat /\ nth_error L i = Some z /\
                  same y z = true /\
                  forall j z', (j < i)%nat -> nth_error L j = Some z' ->
                               same y z' = false
  | None => forall z, In z L -> same y z = false
  end.
Proof.
  induction L as [| x L IH]; intros first y; simpl; [tauto |].
  destruct (same y x) eqn:Hx.
  - exists 0%nat, x. repeat split; [lia | exact Hx |].
    intros j z' Hj. lia.
  - specialize (IH (S first) y).
    destruct (rank_from primaryKey (S first) y L) as [n |].
    + destruct IH as [i [z [-> [Hnth [Hz Hbefore]]]]].
      exists (S i), z. repeat split; [lia | exact Hnth | exact Hz |].
      intros [| j] z' Hj Hz'; simpl in Hz'.
      * congruence.
      * apply (Hbefore j z'); [lia | exact Hz'].
    + intros z [<- | Hz]; [exact Hx | apply IH, Hz].
Qed.

Lemma rrf_score_two k vec fts y :
  (rrf_score primaryKey k [vec; fts] y
   == reciprocal k (rank_in y vec) + reciprocal k (rank_in y fts))%Q.
Proof. unfold rrf_score. simpl. ring. Qed.

Lemma rrf_hybrid_In k (query : string) vec fts x :
  In x (rrf_hybrid primaryKey k query vec fts) ->
  exists y, In y (vec ++ fts)%list /\
            x = set_relevance (Qred (rrf_score primaryKey k [vec; fts] y)) y.
Proof.
  unfold rrf_hybrid. intros Hx.
  apply in_map_iff in Hx. destruct Hx as [y [<- Hy]].
  exists y. split; [| reflexivity].
  apply sort_by_In in Hy.
  induction (vec ++ fts)%list as [| z l IH]; simpl in Hy; [tauto |].
  destruct Hy as [-> | Hy]; [left; reflexivity | right].
  apply filter_In in Hy. apply IH, Hy.
Qed.

(** C2 (amended).  With [k = 60], vector ranks [A:1, B:2] and FTS ranks
    [B:1, C:2], RRF gives [B = 1/62 + 1/61], [A = 1/61], [C = 1/62] and
    the order [B, A, C].  In general every row RRF returns is an input row
    with, as its [_relevance_score], the sum over the two lists of
    [1 / (k + rank)] for the lists that contain it, the rank being the
    1-based position of its first occurrence in the list. *)
Theorem rrf_scores_sum_reciprocal_ranks :
  List.map (fun x => (column "id" x, relevance x))
    (rrf_hybrid None 60 "q" RerankersTest.vector_ranks RerankersTest.fts_ranks)
  = [ (Some (JString "B"), Some (123 # 3782)%Q);
      (Some (JString "A"), Some (1 # 61)%Q);
      (Some (JString "C"), Some (1 # 62)%Q) ] /\
  (123 # 3782 == 1 / 62 + 1 / 61)%Q /\
  (forall k (query : string) vec fts x,
      In x (rrf_hybrid primaryKey k query vec fts) ->
      exists y s,
        In y (vec ++ fts)%list /\
        x = set_relevance s y /\
        relevance x = Some s /\
        (s == reciprocal k (rank_in y vec) + reciprocal k (rank_in y fts))%Q) /\
  (forall k n, reciprocal k (Some n) = (1 / inject_Z (Z.of_nat (k + n)))%Q /\
               reciprocal k None = 0%Q) /\
  (forall y L,
      match rank_in y L with
      | Some n =>
          (1 <= n)%nat /\
          exists z, nth_error L (n - 1) = Some z /\ same y z = true /\
                    forall j z', (j < n - 1)%nat -> nth_error L j = Some z' ->
                                 same y z' = false
      | None => forall z, In z L -> same y z = false
      end).
Proof.
  split; [reflexivity |]. split; [reflexivity |]. split; [| split].
  - intros k query vec fts x Hx.
    destruct (rrf_hybrid_In _ _ _ _ _ Hx) as [y [Hy ->]].
    exists y, (Qred (rrf_score primaryKey k [vec; fts] y)).
    split; [exact Hy |]. split; [reflexivity |]. split.
    + apply relevance_set_relevance.
    + rewrite Qred_correct. apply rrf_score_two.
  - intros k n. split; reflexivity.
  - intros y L. unfold rank.
    pose proof (rank_from_spec L 1 y) as H.
    destruct (rank_from primaryKey 1 y L) as [n |]; [| exact H].
    destruct H as [i [z [-> [Hnth [Hz Hbefore]]]]].
    replace (1 + i - 1)%nat with i by lia.
    split; [lia |]. exists z. auto.
Qed.
End RRFFacts.

Lemma rrf_scores_sum_reciprocal_ranks_witness :
  let x : Hybrid.row :=
    [("id", JString "B"); ("_distance", JNumber (2 # 10));
     ("_relevance_score", JNumber (123 # 3782))] in
  exists y s,
    In y (RerankersTest.vector_ranks ++ RerankersTest.fts_ranks)%list /\
    x = Hybrid.set_relevance s y /\
    Hybrid.relevance x = Some s /\
    (s == Hybrid.reciprocal 60 (Hybrid.rank None y RerankersTest.vector_ranks)
          + Hybrid.reciprocal 60 (Hybrid.rank None y RerankersTest.fts_ranks))%Q.
Proof.
  intros x.
  apply (proj1 (proj2 (proj2 (rrf_scores_sum_reciprocal_ranks None)))
           60%nat "q" RerankersTest.vector_ranks RerankersTest.fts_ranks x).
  left. reflexivity.
Defined.

(** C2, as stated, fails on its own example: [B] is second in the vector
    list and first in the FTS list, so the formula gives it
    [1/62 + 1/61], which is not [1/61 + 1/61]. *)
Lemma rrf_example_B_is_not_two_over_61 :
  let B := RerankersTest.item "B" in
  Hybrid.rank None B RerankersTest.vector_ranks = Some 2%nat /\
  Hybrid.rank None B RerankersTest.fts_ranks = Some 1%nat /\
  (Hybrid.rrf_score None 60 [RerankersTest.vector_ranks; RerankersTest.fts_ranks] B
   == 1 / 62 + 1 / 61)%Q /\
  ~ (Hybrid.rrf_score None 60 [RerankersTest.vector_ranks; RerankersTest.fts_ranks] B
     == 1 / 61 + 1 / 61)%Q /\
  exists x,
    In x (Hybrid.rrf_hybrid None 60 "q" RerankersTest.vector_ranks RerankersTest.fts_ranks) /\
    Hybrid.column "id" x = Some (JString "B") /\
    Hybrid.relevance x = Some (123 # 3782)%Q /\
    ~ (123 # 3782 == 1 / 61 + 1 / 61)%Q.
Proof.
  intros B. split; [reflexivity |]. split; [reflexivity |].
  split; [reflexivity |]. split; [discriminate |].
  exists [("id", JString "B"); ("_distance", JNumber (2 # 10));
          ("_relevance_score", JNumber (123 # 3782))].
  split; [left; reflexivity |]. split; [reflexivity |].
  split; [reflexivity | discriminate].
Qed.

(* ===================================================================== *)
(** * Part III: further properties of the sources *)
(* ===================================================================== *)

(** ** [TTLCache]: composition, frame and traces *)

Section CacheLaws.
Context {number : Type}.
Implicit Types (c : TC.t number) (e : TC.entry number) (v : jsvalue number).
Implicit Types (key k : string) (now : Z) (op : cache_op number).

Lemma cache_eq c c' :
  TC.ttl c = TC.ttl c' -> TC.cache c = TC.cache c' -> c = c'.
Proof. destruct c, c'; simpl; intros -> ->; reflexivity. Qed.

(** X2.  Reading is idempotent: a second [get(k)] at the same instant
    returns the same value and leaves the cache as the first one left
    it. *)
Theorem get_twice_is_get_once c now key :
  TC.get now key (snd (TC.get now key c)) = TC.get now key c.
Proof.
  unfold TC.get.
  destruct (TC.cache c !! key) as [e |] eqn:He; simpl.
  - destruct (TC.expires e <? now) eqn:Hexp; simpl.
    + rewrite lookup_delete_eq. reflexivity.
    + rewrite He, Hexp. reflexivity.
  - rewrite He. reflexivity.
Qed.

(** X3.  Every call touches the entry of its own key only: the entry of
    any other key, expired or not, and the [ttl] are as before, so no call
    sweeps expired entries of other keys, and what a later [get] of
    another key returns does not depend on the call. *)
Theorem step_touches_only_its_key c now now' op k :
  k <> key_of op ->
  TC.cache (snd (TC.step now op c)) !! k = TC.cache c !! k /\
  TC.ttl (snd (TC.step now op c)) = TC.ttl c /\
  fst (TC.get now' k (snd (TC.step now op c))) = fst (TC.get now' k c).
Proof.
  intros Hk.
  assert (Hframe : TC.cache (snd (TC.step now op c)) !! k = TC.cache c !! k
                   /\ TC.ttl (snd (TC.step now op c)) = TC.ttl c).
  { destruct op as [key | key v | key]; simpl in Hk |- *.
    - unfold TC.get. destruct (TC.cache c !! key) as [e |]; simpl; [| tauto].
      destruct (TC.expires e <? now); simpl; [| tauto].
      split; [apply lookup_delete_ne; congruence | reflexivity].
    - split; [apply lookup_insert_ne; congruence | reflexivity].
    - split; [apply lookup_delete_ne; congruence | reflexivity]. }
  destruct Hframe as [Hcache Httl]. split; [exact Hcache |]. split; [exact Httl |].
  unfold TC.get. rewrite Hcache.
  destruct (TC.cache c !! k) as [e |]; [| reflexivity].
  destruct (TC.expires e <? now'); reflexivity.
Qed.

(** X4.  The last write wins: a [set(k)] makes an earlier [set(k)] or
    [delete(k)] unobservable, and a [delete(k)] makes an earlier [set(k)]
    or [delete(k)] unobservable. *)
Theorem last_write_wins c now now' key v v' :
  TC.set now' key v' (TC.set now key v c) = TC.set now' key v' c /\
  TC.set now key v (TC.delete key c) = TC.set now key v c /\
  TC.delete key (TC.set now key v c) = TC.delete key c /\
  TC.delete key (TC.delete key c) = TC.delete key c.
Proof.
  repeat split; apply cache_eq; try reflexivity; simpl.
  - apply insert_insert_eq.
  - apply insert_delete_eq.
  - apply delete_insert_eq.
  - apply map_eq. intros i. destruct (decide (key = i)) as [-> | Hne].
    + rewrite !lookup_delete_eq. reflexivity.
    + rewrite !lookup_delete_ne by exact Hne. reflexivity.
Qed.

(** X5.  Writes to different keys commute. *)
Theorem writes_to_different_keys_commute c now now' key key' v v' :
  key <> key' ->
  TC.set now key v (TC.set now' key' v' c)
  = TC.set now' key' v' (TC.set now key v c) /\
  TC.set now key v (TC.delete key' c) = TC.delete key' (TC.set now key v c) /\
  TC.delete key (TC.delete key' c) = TC.delete key' (TC.delete key c).
Proof.
  intros Hne. repeat split; apply cache_eq; try reflexivity; simpl;
    apply map_eq; intros i;
    destruct (decide (key = i)) as [Hi | Hi], (decide (key' = i)) as [Hi' | Hi'];
    try congruence; subst;
    repeat first [ rewrite lookup_insert_eq | rewrite lookup_delete_eq
                 | rewrite lookup_insert_ne by congruence
                 | rewrite lookup_delete_ne by congruence ];
    reflexivity.
Qed.
End CacheLaws.

Section CacheTraceFacts.
Context {number : Type}.
Implicit Types (c : TC.t number) (e : TC.entry number) (v : jsvalue number).
Implicit Types (key k : string) (now : Z) (op : cache_op number).
Implicit Types (ops : list (Z * cache_op number)).

Lemma run_cons now op ops c :
  snd (TC.run ((now, op) :: ops) c) = snd (TC.run ops (snd (TC.step now op c))).
Proof.
  simpl. destruct (TC.step now op c) as [out c']. simpl.
  destruct (TC.run ops c') as [outs final]. reflexivity.
Qed.

Lemma get_miss_entry c now key :
  fst (TC.get now key c) = JUndefined ->
  match TC.cache (snd (TC.get now key c)) !! key with
  | Some e => TC.value e = JUndefined
  | None => True
  end.
Proof.
  unfold TC.get.
  destruct (TC.cache c !! key) as [e |] eqn:He; simpl.
  - destruct (TC.expires e <? now); simpl.
    + intros _. rewrite lookup_delete_eq. exact I.
    + intros Hv. rewrite He. exact Hv.
  - intros _. rewrite He. exact I.
Qed.

Lemma step_keeps_miss c now op key :
  (forall v, op <> OpSet key v) ->
  match TC.cache c !! key with
  | Some e => TC.value e = JUndefined
  | None => True
  end ->
  match TC.cache (snd (TC.step now op c)) !! key with
  | Some e => TC.value e = JUndefined
  | None => True
  end.
Proof.
  intros Hop Hmiss. destruct op as [k | k v | k]; simpl.
  - unfold TC.get. destruct (TC.cache c !! k) as [e |] eqn:He; simpl;
      [| exact Hmiss].
    destruct (TC.expires e <? now); simpl; [| exact Hmiss].
    destruct (decide (k = key)) as [-> | Hne].
    + rewrite lookup_delete_eq. exact I.
    + rewrite lookup_delete_ne by exact Hne. exact Hmiss.
  - destruct (decide (k = key)) as [-> | Hne].
    + exfalso. apply (Hop v). reflexivity.
    + rewrite lookup_insert_ne by exact Hne. exact Hmiss.
  - destruct (decide (k = key)) as [-> | Hne].
    + rewrite lookup_delete_eq. exact I.
    + rewrite lookup_delete_ne by exact Hne. exact Hmiss.
Qed.

Lemma run_keeps_miss key ops : forall c,
  Forall (fun timed => forall v, snd timed <> OpSet key v) ops ->
  match TC.cache c !! key with
  | Some e => TC.value e = JUndefined
  | None => True
  end ->
  match TC.cache (snd (TC.run ops c)) !! key with
  | Some e => TC.value e = JUndefined
  | None => True
  end.
Proof.
  induction ops as [| [now op] ops IH]; intros c Hops Hmiss; [exact Hmiss |].
  rewrite run_cons. inversion Hops as [| ? ? Hop Hrest]; subst.
  apply IH; [exact Hrest |]. apply step_keeps_miss; [exact Hop | exact Hmiss].
Qed.

(** X1.  A miss is stable: once [get(k)] has returned [undefined], a
    further [get(k)] returns [undefined], at whatever time and after
    whatever calls at whatever times, as long as no [set(k)] is among
    them. *)
Theorem get_miss_is_stable c now now' key ops :
  fst (TC.get now key c) = JUndefined ->
  Forall (fun timed => forall v, snd timed <> OpSet key v) ops ->
  fst (TC.get now' key (snd (TC.run ops (snd (TC.get now key c))))) = JUndefined.
Proof.
  intros Hmiss Hops.
  pose proof (run_keeps_miss key ops _ Hops (get_miss_entry c now key Hmiss)) as H.
  unfold TC.get at 1.
  destruct (TC.cache (snd (TC.run ops (snd (TC.get now key c)))) !! key) as [e |];
    [| reflexivity].
  destruct (TC.expires e <? now'); [reflexivity | exact H].
Qed.

Lemma step_ttl now op c : TC.ttl (snd (TC.step now op c)) = TC.ttl c.
Proof.
  destruct op as [key | key v | key]; simpl; try reflexivity.
  unfold TC.get. destruct (TC.cache c !! key) as [e |]; [| reflexivity].
  destruct (TC.expires e <? now); reflexivity.
Qed.

Lemma run_ttl ops : forall c, TC.ttl (snd (TC.run ops c)) = TC.ttl c.
Proof.
  induction ops as [| [now op] ops IH]; intros c; [reflexivity |].
  rewrite run_cons, IH. apply step_ttl.
Qed.

Lemma step_size now op c :
  (size (TC.cache (snd (TC.step now op c)))
   <= size (TC.cache c) + count_sets [(now, op)])%nat.
Proof.
  destruct op as [key | key v | key]; simpl.
  - unfold TC.get. destruct (TC.cache c !! key) as [e |] eqn:He; simpl; [| lia].
    destruct (TC.expires e <? now); simpl; [| lia].
    rewrite map_size_delete, He. simpl. lia.
  - rewrite map_size_insert. destruct (TC.cache c !! key); simpl; lia.
  - rewrite map_size_delete. destruct (TC.cache c !! key); simpl; lia.
Qed.

(** X6.  The cache never holds more entries than it was given: after any
    sequence of calls the number of stored entries is at most the number
    there was before plus the number of [set] calls; [get] and [delete]
    never add one. *)
Theorem run_size_bounded_by_sets ops c :
  (size (TC.cache (snd (TC.run ops c))) <= size (TC.cache c) + count_sets ops)%nat.
Proof.
  revert c. induction ops as [| [now op] ops IH]; intros c.
  - simpl. lia.
  - rewrite run_cons. specialize (IH (snd (TC.step now op c))).
    pose proof (step_size now op c) as Hstep.
    destruct op; simpl in *; lia.
Qed.

(** X7.  A [set] that is read too late leaves no trace: a [get(k)] after
    [now + ttl] returns [undefined] and the cache is then as if [k] had
    been deleted from the cache before the [set].  With a negative [ttl]
    this is the case for the very instant of the [set]. *)
Theorem set_then_late_get_is_delete c now now' key v :
  now + TC.ttl c < now' ->
  TC.get now' key (TC.set now key v c) = (JUndefined, TC.delete key c).
Proof.
  intros Hlate. unfold TC.get. simpl. rewrite lookup_insert_eq. simpl.
  destruct (Z.ltb_spec (now + TC.ttl c) now'); [| lia].
  f_equal. apply cache_eq; [reflexivity |]. simpl. apply delete_insert_eq.
Qed.

(** What is stored under a key was put there by the last write to it. *)
Lemma run_entry_is_last_write key ops : forall c before,
  (forall e, TC.cache c !! key = Some e ->
     exists t, before = Some (t, TC.value e) /\ TC.expires e = t + TC.ttl c) ->
  forall e, TC.cache (snd (TC.run ops c)) !! key = Some e ->
    exists t, last_write key ops before = Some (t, TC.value e) /\
              TC.expires e = t + TC.ttl c.
Proof.
  induction ops as [| [now op] ops IH]; intros c before Hinv e He.
  - apply Hinv, He.
  - rewrite run_cons in He.
    pose proof (step_ttl now op c) as Httl.
    destruct op as [k | k v | k]; simpl last_write.
    + rewrite <- Httl. apply (IH _ _ ) with (e := e); [| exact He].
      intros e' He'. rewrite Httl. apply Hinv.
      simpl in He'. unfold TC.get in He'.
      destruct (TC.cache c !! k) as [e0 |] eqn:Hk; simpl in He'; [| exact He'].
      destruct (TC.expires e0 <? now); simpl in He'; [| exact He'].
      destruct (decide (k = key)) as [-> | Hne].
      * rewrite lookup_delete_eq in He'. discriminate.
      * rewrite lookup_delete_ne in He' by exact Hne. exact He'.
    + rewrite <- Httl. apply (IH _ _) with (e := e); [| exact He].
      intros e' He'. rewrite Httl. simpl in He'.
      destruct (String.eqb_spec k key) as [-> | Hne].
      * rewrite lookup_insert_eq in He'. injection He' as <-.
        exists now. split; reflexivity.
      * rewrite lookup_insert_ne in He' by exact Hne. apply Hinv, He'.
    + rewrite <- Httl. apply (IH _ _) with (e := e); [| exact He].
      intros e' He'. rewrite Httl. simpl in He'.
      destruct (String.eqb_spec k key) as [-> | Hne].
      * rewrite lookup_delete_eq in He'. discriminate.
      * rewrite lookup_delete_ne in He' by exact Hne. apply Hinv, He'.
Qed.

(** X8.  The cache never invents or outlives a value: from a new cache,
    whatever [get(k)] returns other than [undefined] after a sequence of
    calls is the value of the last [set(k)] of the sequence, no
    [delete(k)] came after that [set], and the [get] is not later than
    [ttl] after it. *)
Theorem get_returns_only_the_last_set (ttl : Z) ops now key v :
  fst (TC.get now key (snd (TC.run ops (TC.new ttl)))) = v ->
  v <> JUndefined ->
  exists t, last_write key ops None = Some (t, v) /\ now <= t + ttl.
Proof.
  intros Hget Hdefined. unfold TC.get in Hget.
  destruct (TC.cache (snd (TC.run ops (TC.new ttl))) !! key) as [e |] eqn:He;
    [| simpl in Hget; congruence].
  destruct (run_entry_is_last_write key ops (TC.new ttl) None) with (e := e)
    as [t [Hlast Hexp]]; [| exact He |].
  - intros e' He'. simpl in He'. rewrite lookup_empty in He'. discriminate.
  - simpl in Hexp.
    destruct (Z.ltb_spec (TC.expires e) now); simpl in Hget; [congruence |].
    exists t. subst v. split; [exact Hlast | lia].
Qed.

(** While no call is later than [now], a [set] that [now] does not outlive
    is still stored. *)
Lemma run_keeps_last_write key now ops : forall c before,
  Forall (fun timed => fst timed <= now) ops ->
  (forall t v, before = Some (t, v) -> now <= t + TC.ttl c ->
     TC.cache c !! key = Some {| TC.value := v; TC.expires := t + TC.ttl c |}) ->
  forall t v, last_write key ops before = Some (t, v) -> now <= t + TC.ttl c ->
    TC.cache (snd (TC.run ops c)) !! key
    = Some {| TC.value := v; TC.expires := t + TC.ttl c |}.
Proof.
  induction ops as [| [now0 op] ops IH]; intros c before Htimes Hinv t v Hlast Hlive.
  - apply (Hinv t v Hlast Hlive).
  - rewrite run_cons.
    inversion Htimes as [| ? ? Hnow0 Hrest]; subst. simpl in Hnow0.
    pose proof (step_ttl now0 op c) as Httl.
    rewrite <- Httl. rewrite <- Httl in Hlive.
    destruct op as [k | k v0 | k]; simpl in Hlast.
    + refine (IH _ _ Hrest _ t v Hlast Hlive).
      intros t' v' Hb Hl. rewrite Httl in Hl |- *.
      specialize (Hinv t' v' Hb Hl).
      simpl. unfold TC.get.
      destruct (TC.cache c !! k) as [e0 |] eqn:Hk; simpl; [| exact Hinv].
      destruct (Z.ltb_spec (TC.expires e0) now0); simpl; [| exact Hinv].
      destruct (decide (k = key)) as [-> | Hne].
      * rewrite Hinv in Hk. injection Hk as <-. simpl in *. lia.
      * rewrite lookup_delete_ne by exact Hne. exact Hinv.
    + refine (IH _ _ Hrest _ t v Hlast Hlive).
      intros t' v' Hb Hl. rewrite Httl in Hl |- *. simpl.
      destruct (String.eqb_spec k key) as [-> | Hne].
      * injection Hb as <- <-. apply lookup_insert_eq.
      * rewrite lookup_insert_ne by exact Hne. apply (Hinv t' v' Hb Hl).
    + refine (IH _ _ Hrest _ t v Hlast Hlive).
      intros t' v' Hb Hl. rewrite Httl in Hl |- *. simpl.
      destruct (String.eqb_spec k key) as [-> | Hne].
      * discriminate.
      * rewrite lookup_delete_ne by exact Hne. apply (Hinv t' v' Hb Hl).
Qed.

(** X9.  What was set is read back: from a new cache, if the last write to
    [k] in a sequence of calls is [set(k, v)] at time [t], no call of the
    sequence is later than [now], and [now <= t + ttl], then [get(k)] at
    [now] returns [v] and evicts nothing, whatever was read, written or
    evicted before. *)
Theorem get_returns_the_last_set (ttl : Z) ops now key t v :
  Forall (fun timed => fst timed <= now) ops ->
  last_write key ops None = Some (t, v) ->
  now <= t + ttl ->
  TC.get now key (snd (TC.run ops (TC.new ttl)))
  = (v, snd (TC.run ops (TC.new ttl))).
Proof.
  intros Htimes Hlast Hlive.
  pose proof (run_keeps_last_write key now ops (TC.new ttl) None Htimes) as Hkeep.
  specialize (Hkeep ltac:(discriminate) t v Hlast Hlive).
  apply (get_live _ _ _ _ Hkeep). simpl. exact Hlive.
Qed.
End CacheTraceFacts.

(** ** [toSQL]: which values convert, which exception comes out *)

Lemma mapM_throws_first {E A B} (f : A -> outcome E B) (pre post : list A)
    (x : A) (e : E) :
  Forall (fun y => exists r, f y = Return r) pre ->
  f x = Throw e ->
  mapM f (pre ++ x :: post)%list = Throw e.
Proof.
  intros Hpre Hx. induction Hpre as [| y pre [r Hy] _ IH]; simpl.
  - rewrite Hx. reflexivity.
  - rewrite Hy. simpl. fold (mapM f). rewrite IH. reflexivity.
Qed.

Lemma mapM_inv_return {E A B} (f : A -> outcome E B) (l : list A) (ys : list B) :
  mapM f l = Return ys -> Forall (fun x => exists y, f x = Return y) l.
Proof.
  revert ys. induction l as [| x l IH]; intros ys H; [constructor |].
  simpl in H. fold (mapM f) in H.
  destruct (f x) as [y |] eqn:Hx; simpl in H; [| discriminate].
  destruct (mapM f l) as [ys' |] eqn:Hl; simpl in H; [| discriminate].
  constructor; eauto.
Qed.

Lemma mapM_inv_throw {E A B} (f : A -> outcome E B) (l : list A) (e : E) :
  mapM f l = Throw e -> Exists (fun x => f x = Throw e) l.
Proof.
  induction l as [| x l IH]; intros H; [discriminate |].
  simpl in H. fold (mapM f) in H.
  destruct (f x) as [y |] eqn:Hx; simpl in H.
  - destruct (mapM f l) as [ys' |] eqn:Hl; simpl in H; [discriminate |].
    right. apply IH. congruence.
  - left. congruence.
Qed.

Lemma string_append_assoc (a b c : string) : ((a ++ b) ++ c = a ++ (b ++ c))%string.
Proof.
  induction a as [| ch a IH]; [reflexivity |].
  change (String ch ((a ++ b) ++ c) = String ch (a ++ (b ++ c)))%string.
  f_equal. exact IH.
Qed.

Section ToSQLErrors.
Context {number : Type}.
Variable number_toString : number -> string.
Variable formatISO : Z -> string.
Variable template : jsvalue number -> string.

Local Abbreviation toSQL_if := (UtilTs.toSQL number_toString formatISO template).

Lemma toSQL_outcome (value : jsvalue number) :
  is_IntoSql value = true ->
  match toSQL_if value with
  | Return _ => valid_dates value = true
  | Throw e => valid_dates value = false /\ e = RangeError
  end.
Proof.
  induction value as [s | n | b | | tv | items IH |] using jsvalue_items_ind;
    intros Hty; try (simpl; auto; fail); try discriminate Hty.
  - destruct tv as [t |]; simpl; auto.
  - rewrite toSQL_if_array. simpl in Hty. rewrite forallb_forall in Hty.
    rewrite List.Forall_forall in IH.
    destruct (mapM toSQL_if items) as [parts | e] eqn:Hitems; simpl.
    + apply mapM_inv_return in Hitems. rewrite List.Forall_forall in Hitems.
      apply forallb_forall. intros x Hx.
      specialize (IH x Hx (Hty x Hx)). destruct (Hitems x Hx) as [y Hy].
      rewrite Hy in IH. exact IH.
    + apply mapM_inv_throw in Hitems. apply List.Exists_exists in Hitems.
      destruct Hitems as [x [Hx Hthrow]].
      specialize (IH x Hx (Hty x Hx)). rewrite Hthrow in IH.
      destruct IH as [Hbad ->]. split; [| reflexivity].
      apply Bool.not_true_is_false. intros Hall.
      rewrite forallb_forall in Hall. specialize (Hall x Hx). congruence.
Qed.

(** X10.  On a value of the parameter type [IntoSql] (a string, a number,
    a boolean, [null], a Date, or an array of such values), [toSQL]
    returns a string exactly when no Date in the value, at any depth, is
    invalid; otherwise it throws, and what it throws is the RangeError of
    [toISOString], also when the invalid Date sits deep inside nested
    arrays. *)
Theorem toSQL_on_IntoSql_returns_iff_dates_valid (value : jsvalue number) :
  is_IntoSql value = true ->
  ((exists sql, toSQL_if value = Return sql) <-> valid_dates value = true) /\
  (forall e, toSQL_if value = Throw e -> e = RangeError).
Proof.
  intros Hty. pose proof (toSQL_outcome value Hty) as H.
  split; [split |].
  - intros [sql Hsql]. rewrite Hsql in H. exact H.
  - intros Hdates.
    apply (toSQL_total number_toString formatISO template value Hty Hdates).
  - intros e He. rewrite He in H. apply H.
Qed.

(** X11.  An array fails with the exception of its first failing element:
    the elements before it convert, the elements after it are not looked
    at. *)
Theorem toSQL_array_throws_first_failure
    (pre post : list (jsvalue number)) (x : jsvalue number) (e : exn) :
  Forall (fun y => is_IntoSql y = true /\ valid_dates y = true) pre ->
  toSQL_if x = Throw e ->
  toSQL_if (JArray (pre ++ x :: post)) = Throw e.
Proof.
  intros Hpre Hx. rewrite toSQL_if_array.
  rewrite (mapM_throws_first toSQL_if pre post x e); [reflexivity | | exact Hx].
  apply List.Forall_forall. intros y Hy.
  rewrite List.Forall_forall in Hpre. destruct (Hpre y Hy) as [Hty Hdates].
  apply (toSQL_total number_toString formatISO template y Hty Hdates).
Qed.

(** X12.  Since nothing is escaped, the output does not determine the
    input: for all strings [s] and [t], the one-element array holding
    [s ++ "', '" ++ t] and the two-element array [[s, t]] give the same
    SQL text. *)
Theorem toSQL_unescaped_quote_merges_elements (s t : string) :
  toSQL_if (JArray [JString (s ++ "', '" ++ t)])
  = toSQL_if (JArray [JString s; JString t]).
Proof.
  rewrite !toSQL_if_array. simpl.
  rewrite !string_append_assoc. reflexivity.
Qed.
End ToSQLErrors.

(** ** [convertToTable]: what it reads and the shape of what it builds *)

Section ConvertToTableShape.
Context {number : Type} `{ArrowLibrary : !Arrow.Library number}.
Implicit Types (datum first : Arrow.record number) (data rest : list (Arrow.record number)).
Implicit Types (records : Arrow.Table number) (columns : list string).

Lemma guard_inv {A} (check : option exn) (a b : A) :
  Arrow.guard check a = Return b -> b = a.
Proof. unfold Arrow.guard. destruct check; congruence. Qed.

Lemma append_vectors_ext key vectorSize data data' (appended : list (jsvalue number)) :
  Forall2 (fun d d' => Arrow.get_prop d key = Arrow.get_prop d' key) data data' ->
  Arrow.append_vectors key vectorSize data appended
  = Arrow.append_vectors key vectorSize data' appended.
Proof.
  intros Hagree. revert appended.
  induction Hagree as [| d d' data data' Hd _ IH]; intros appended; simpl;
    [reflexivity |].
  rewrite Hd. destruct (Arrow.length_of (Arrow.get_prop d' key)) as [len | e];
    simpl; [| reflexivity].
  destruct (Arrow.strict_ne len vectorSize); [reflexivity |].
  destruct (Arrow.append appended (Arrow.get_prop d' key)); simpl;
    [apply IH | reflexivity].
Qed.

Lemma map_get_prop_ext key data data' :
  Forall2 (fun d d' => Arrow.get_prop d key = Arrow.get_prop d' key) data data' ->
  List.map (fun datum => Arrow.get_prop datum key) data
  = List.map (fun datum => Arrow.get_prop datum key) data'.
Proof. induction 1 as [| d d' data data' Hd _ IH]; simpl; congruence. Qed.

Lemma Forall2_key (P : string -> Prop) key data data' :
  P key ->
  Forall2 (fun d d' => forall k, P k -> Arrow.get_prop d k = Arrow.get_prop d' k)
    data data' ->
  Forall2 (fun d d' => Arrow.get_prop d key = Arrow.get_prop d' key) data data'.
Proof. intros Hk. induction 1; constructor; auto. Qed.

Lemma build_columns_ext first data data' columns : forall records,
  Forall2 (fun d d' => forall k, In k columns ->
                                 Arrow.get_prop d k = Arrow.get_prop d' k)
    data data' ->
  Arrow.build_columns data first columns records
  = Arrow.build_columns data' first columns records.
Proof.
  induction columns as [| key columns IH]; intros records Hagree; [reflexivity |].
  assert (Hkey : Forall2 (fun d d' => Arrow.get_prop d key = Arrow.get_prop d' key)
                   data data').
  { apply (Forall2_key (fun k => In k (key :: columns))); [left; reflexivity | exact Hagree]. }
  assert (Hrest : Forall2 (fun d d' => forall k, In k columns ->
                             Arrow.get_prop d k = Arrow.get_prop d' k) data data').
  { clear -Hagree. induction Hagree as [| d d' data data' Hd _ IH];
      constructor; [| exact IH].
    intros k Hk. apply Hd. right. exact Hk. }
  simpl. destruct (String.eqb key "vector").
  - destruct (Arrow.length_of (Arrow.get_prop first "vector")) as [size | e];
      simpl; [| reflexivity].
    rewrite (append_vectors_ext key size data data' [] Hkey).
    destruct (Arrow.append_vectors key size data' []) as [appended | e];
      simpl; [| reflexivity].
    destruct (Arrow.finish appended); simpl; [apply IH, Hrest | reflexivity].
  - rewrite (map_get_prop_ext key data data' Hkey).
    destruct (Arrow.vectorFromArray _); simpl; [apply IH, Hrest | reflexivity].
Qed.

(** X13.  The columns are those of the first record and nothing else is
    read: two arrays with the same first record whose other records agree,
    position by position, on the keys of the first record give the same
    table or the same exception, so a field that the first record does
    not have is dropped without notice wherever it occurs. *)
Theorem convertToTable_reads_first_record_keys_only first rest rest' :
  Forall2 (fun d d' => forall k, In k (Arrow.keys first) ->
                                 Arrow.get_prop d k = Arrow.get_prop d' k)
    rest rest' ->
  Arrow.convertToTable (first :: rest) = Arrow.convertToTable (first :: rest').
Proof.
  intros Hagree. unfold Arrow.convertToTable.
  rewrite (build_columns_ext first (first :: rest) (first :: rest'));
    [reflexivity |].
  constructor; [reflexivity | exact Hagree].
Qed.

Lemma append_vectors_length key vectorSize data : forall appended out,
  Arrow.append_vectors key vectorSize data appended = Return out ->
  List.length out = (List.length appended + List.length data)%nat.
Proof.
  induction data as [| d data IH]; intros appended out H; simpl in H.
  - injection H as <-. simpl. lia.
  - destruct (Arrow.length_of (Arrow.get_prop d key)) as [len | e];
      simpl in H; [| discriminate].
    destruct (Arrow.strict_ne len vectorSize); [discriminate |].
    destruct (Arrow.append appended (Arrow.get_prop d key)) as [appended' | e]
      eqn:Happ; simpl in H; [| discriminate].
    apply guard_inv in Happ. subst appended'.
    apply IH in H. rewrite H, length_app. simpl. lia.
Qed.

Lemma assign_slots (n : nat) records key (v : Arrow.Vector number) :
  slots v = n ->
  Forall (fun kv => slots (snd kv) = n) records ->
  Forall (fun kv => slots (snd kv) = n) (Arrow.assign records key v).
Proof.
  intros Hv. induction 1 as [| [k old] records Hold Htail IH]; simpl.
  - constructor; [exact Hv | constructor].
  - destruct (String.eqb k key); constructor; auto.
Qed.

Lemma assign_names_key records key (v : Arrow.Vector number) :
  In key (List.map fst (Arrow.assign records key v)).
Proof.
  induction records as [| [k old] records IH]; simpl; [left; reflexivity |].
  destruct (String.eqb_spec k key) as [-> | Hne]; simpl; auto.
Qed.

Lemma assign_keeps_names records key k (v : Arrow.Vector number) :
  In k (List.map fst records) -> In k (List.map fst (Arrow.assign records key v)).
Proof.
  induction records as [| [k0 old] records IH]; simpl; [tauto |].
  destruct (String.eqb_spec k0 key) as [-> | Hne]; simpl; intros [H | H]; auto.
Qed.

Lemma build_columns_slots data first columns : forall records table,
  Forall (fun kv => slots (snd kv) = List.length data) records ->
  Arrow.build_columns data first columns records = Return table ->
  Forall (fun kv => slots (snd kv) = List.length data) table.
Proof.
  induction columns as [| key columns IH]; intros records table Hrecords H;
    simpl in H.
  - injection H as <-. exact Hrecords.
  - destruct (String.eqb key "vector").
    + destruct (Arrow.length_of (Arrow.get_prop first "vector")) as [size | e];
        simpl in H; [| discriminate].
      destruct (Arrow.append_vectors key size data []) as [appended | e] eqn:Happ;
        simpl in H; [| discriminate].
      apply append_vectors_length in Happ. simpl in Happ.
      destruct (Arrow.finish appended) as [column | e] eqn:Hcolumn;
        simpl in H; [| discriminate].
      apply guard_inv in Hcolumn. subst column.
      refine (IH _ _ (assign_slots _ _ _ _ _ Hrecords) H). exact Happ.
    + destruct (Arrow.vectorFromArray _) as [column | e] eqn:Hcolumn;
        simpl in H; [| discriminate].
      apply guard_inv in Hcolumn. subst column.
      refine (IH _ _ (assign_slots _ _ _ _ _ Hrecords) H).
      simpl. apply length_map.
Qed.

(** X14.  Whatever [convertToTable] returns is rectangular and covers the
    first record: every column has exactly one slot per record, and every
    key of the first record names a column, whatever the records hold. *)
Theorem convertToTable_is_rectangular data (table : Arrow.Table number) :
  Arrow.convertToTable data = Return table ->
  Forall (fun kv => slots (snd kv) = List.length data) table /\
  exists first rest,
    data = first :: rest /\
    forall k, In k (Arrow.keys first) -> In k (List.map fst table).
Proof.
  intros H. destruct data as [| first rest]; [discriminate |].
  unfold Arrow.convertToTable in H.
  destruct (Arrow.build_columns (first :: rest) first (Arrow.keys first) [])
    as [records | e] eqn:Hrecords; simpl in H; [| discriminate].
  apply guard_inv in H. subst table. rename Hrecords into H.
  split; [| exists first, rest; split; [reflexivity |]].
  - apply (build_columns_slots (first :: rest) first (Arrow.keys first) [] records);
      [constructor | exact H].
  - intros k Hk.
    assert (Hgen : forall data columns records t,
               Arrow.build_columns data first columns records = Return t ->
               forall key, In key columns \/ In key (List.map fst records) ->
                           In key (List.map fst t)).
    { clear. intros data.
      induction columns as [| c columns IH]; intros records t Ht key Hkey;
        simpl in Ht.
      - injection Ht as <-. destruct Hkey as [[] | Hkey]. exact Hkey.
      - assert (Hassign : forall v : Arrow.Vector number,
                  In key (c :: columns) \/ In key (List.map fst records) ->
                  In key columns \/ In key (List.map fst (Arrow.assign records c v))).
        { intros v [[-> | Hin] | Hin]; [right | left; exact Hin | right].
          - apply assign_names_key.
          - apply assign_keeps_names, Hin. }
        destruct (String.eqb c "vector").
        + destruct (Arrow.length_of (Arrow.get_prop first "vector")) as [size | e];
            simpl in Ht; [| discriminate].
          destruct (Arrow.append_vectors c size data []) as [a | e];
            simpl in Ht; [| discriminate].
          destruct (Arrow.finish a) as [column | e]; simpl in Ht; [| discriminate].
          apply (IH _ _ Ht). apply Hassign, Hkey.
        + destruct (Arrow.vectorFromArray _) as [column | e];
            simpl in Ht; [| discriminate].
          apply (IH _ _ Ht). apply Hassign, Hkey. }
    apply (Hgen _ _ _ _ H). left. exact Hk.
Qed.
End ConvertToTableShape.

(** ** The node client: connections and tables *)

Module NC := NodeClient.

Section NodeClientFacts.
Context {number db tbl buffer Schema ArrowTable indexParams remote : Type}.
Context `{ArrowLibrary : !Arrow.Library number}.
Variable databaseNew : string -> result db.
Variable databaseOpenTable : db -> string -> list string -> result tbl.
Variable tableCreate : db -> string -> buffer -> option string -> list string -> result tbl.
Variable tableAdd : tbl -> buffer -> string -> list string -> result tbl.
Variable tableCountRows : tbl -> result number.
Variable RemoteConnection : NC.ConnectionOptions -> result remote.
Variable isEmbeddingFunction : NC.jsobject -> bool.
Variable createEmptyTable : Schema -> result ArrowTable.
Variable fromTableToBuffer : ArrowTable -> option NC.jsobject -> result buffer.
Variable chunks : ArrowTable -> nat.
Variable writeAll : Arrow.Table number -> result buffer.
Implicit Types (this : NC.LocalTable tbl) (conn : NC.LocalConnection db).
Implicit Types (data records : list (Arrow.record number)).

Local Abbreviation to_buffer := (NC.fromRecordsToBuffer writeAll).
Local Abbreviation do_add := (NC.add tableAdd writeAll).
Local Abbreviation do_overwrite := (NC.overwrite tableAdd writeAll).
Local Abbreviation do_countRows := (NC.countRows tableCountRows).
Local Abbreviation do_openTable := (NC.openTable databaseOpenTable).
Local Abbreviation do_createTableImpl :=
  (NC.createTableImpl tableCreate createEmptyTable fromTableToBuffer chunks writeAll).
Local Abbreviation do_createTable :=
  (NC.createTable tableCreate isEmbeddingFunction createEmptyTable
     fromTableToBuffer chunks writeAll).
Local Abbreviation do_connect := (NC.connect databaseNew RemoteConnection).

Lemma bind_inv {E A B} (m : outcome E A) (k : A -> outcome E B) (b : B) :
  (let* a := m in k a) = Return b -> exists a, m = Return a /\ k a = Return b.
Proof. destruct m as [a | e]; simpl; [eauto | discriminate]. Qed.

(** X15.  A table sends the credentials of the connection that made it:
    the credential arguments [add] and [overwrite] push for a table from
    [openTable] or [createTable] are the connection's [awsParams()], and
    these are nothing without credentials, else the access key id and the
    secret key in this order, followed by the session token only if there
    is one. *)
Theorem tables_carry_connection_credentials conn :
  (forall name embeddings this,
      do_openTable name embeddings conn = Return this ->
      NC.credential_args this = NC.awsParams conn) /\
  (forall options this,
      do_createTableImpl options conn = Return this ->
      NC.credential_args this = NC.awsParams conn) /\
  match NC.awsCredentials (NC._options conn) with
  | None => NC.awsParams conn = []
  | Some credentials =>
      match NC.sessionToken credentials with
      | None =>
          NC.awsParams conn
          = [NC.accessKeyId credentials; NC.secretKey credentials]
      | Some token =>
          NC.awsParams conn
          = [NC.accessKeyId credentials; NC.secretKey credentials; token]
      end
  end.
Proof.
  split; [| split].
  - intros name embeddings this H. unfold NC.openTable in H.
    apply bind_inv in H. destruct H as [t [_ [= <-]]]. reflexivity.
  - intros options this H. unfold NC.createTableImpl in H. cbv zeta in H.
    apply bind_inv in H. destruct H as [buf [_ H]].
    apply bind_inv in H. destruct H as [t [_ [= <-]]]. reflexivity.
  - unfold NC.awsParams.
    destruct (NC.awsCredentials (NC._options conn)) as [credentials |];
      [| reflexivity].
    destruct (NC.sessionToken credentials); reflexivity.
Qed.

(** X16.  [add] and [overwrite] convert the records before anything else:
    when [convertToTable] throws, both reject with that exception, the
    native module is not called and the table object keeps its handle; for
    the empty array the exception is 'At least one record needs to be
    provided'. *)
Theorem add_rejects_before_the_native_call data this :
  (forall e, Arrow.convertToTable data = Throw e ->
     do_add data this = (Throw e, this) /\
     do_overwrite data this = (Throw e, this)) /\
  do_add [] this
  = (Throw (Error "At least one record needs to be provided"), this) /\
  do_overwrite [] this
  = (Throw (Error "At least one record needs to be provided"), this).
Proof.
  split; [| split; reflexivity].
  intros e He. unfold NC.add, NC.overwrite, NC.fromRecordsToBuffer.
  rewrite He. split; reflexivity.
Qed.

(** X17.  When the records convert, [add] calls the native [tableAdd] once
    with mode 'append'.  If that call succeeds, [add] resolves to
    [undefined] (not to a number of rows), and the table object takes the
    handle the call returned, so that a following [countRows] counts on
    the new handle; name, embedding function and options are untouched.
    If the call fails, [add] rejects with its error and the old handle
    stays. *)
Theorem add_resolves_undefined_and_takes_new_handle data this buf :
  to_buffer data = Return buf ->
  match tableAdd (NC._tbl this) buf "append" (NC.credential_args this) with
  | Return newTable =>
      do_add data this
      = (Return JUndefined,
         {| NC._tbl := newTable; NC._name := NC._name this;
            NC._embeddings := NC._embeddings this;
            NC.t_options := NC.t_options this |}) /\
      do_countRows (snd (do_add data this)) = tableCountRows newTable
  | Throw e =>
      do_add data this = (Throw e, this) /\
      do_countRows (snd (do_add data this)) = tableCountRows (NC._tbl this)
  end.
Proof.
  intros Hbuf. unfold NC.add. rewrite Hbuf. simpl.
  destruct (tableAdd (NC._tbl this) buf "append" (NC.credential_args this));
    simpl; split; reflexivity.
Qed.

(** X18.  With a table name as first argument, [createTable] cannot make
    an empty table: without data, or with an empty array, it throws
    'Either data or schema needs to defined' whatever the other arguments
    are; and when the records do not convert, it throws what
    [convertToTable] throws.  In all three cases the native module is not
    called. *)
Theorem createTable_by_name_needs_records (name : string)
    (optsOrEmbedding opt : option NC.jsobject) conn :
  do_createTable (inl name) None optsOrEmbedding opt conn
  = Throw (Error "Either data or schema needs to defined") /\
  do_createTable (inl name) (Some []) optsOrEmbedding opt conn
  = Throw (Error "Either data or schema needs to defined") /\
  (forall records e,
      records <> [] ->
      Arrow.convertToTable records = Throw e ->
      do_createTable (inl name) (Some records) optsOrEmbedding opt conn = Throw e).
Proof.
  split; [reflexivity |]. split; [reflexivity |].
  intros records e Hne He.
  unfold NC.createTable, NC.createTableImpl. cbv zeta. simpl.
  destruct records as [| first rest]; [congruence |]. simpl.
  unfold NC.fromRecordsToBuffer. rewrite He. reflexivity.
Qed.

(** X19.  Write options are recognised by shape, and what is not
    recognised is dropped without notice: a fourth argument that does not
    have exactly one key has no effect at all, whatever the third argument
    is, and a third argument that does not have exactly one key and is no
    embedding function has no effect at all, whatever the fourth argument
    is; the table is then made with the other argument's mode or with
    'create'. *)
Theorem createTable_ignores_unrecognised_options (name : string)
    (data : option (list (Arrow.record number)))
    (x : option NC.jsobject) (o : NC.jsobject) conn :
  List.length o <> 1%nat ->
  do_createTable (inl name) data x (Some o) conn
  = do_createTable (inl name) data x None conn /\
  (isEmbeddingFunction o = false ->
   do_createTable (inl name) data (Some o) x conn
   = do_createTable (inl name) data None x conn).
Proof.
  intros Hkeys.
  assert (Hno : NC.isWriteOptions o = false).
  { unfold NC.isWriteOptions. rewrite length_map.
    destruct (Nat.eqb_spec (List.length o) 1); [congruence | reflexivity]. }
  split.
  - unfold NC.createTable. rewrite Hno. reflexivity.
  - intros Hemb. unfold NC.createTable. rewrite Hno, Hemb.
    destruct x as [o' |]; [destruct (NC.isWriteOptions o') |]; reflexivity.
Qed.

(** X20.  [connect] routes by the prefix of the URI of its argument and by
    nothing else.  The URI is the string argument itself, or the [uri] of
    the options object, or '' when the object has no [uri] key; with a
    [uri] key that holds [undefined], [connect] does not resolve.  A
    remote connection is made only if the URI starts with 'db://', from
    options that carry the URI; a local connection is made only if the URI
    does not start with 'db://', it holds the database that [databaseNew]
    returned for the URI, and its options carry the URI.  With a string
    argument the options carry no region, with an options object that has
    no [region] key they carry 'us-west-2'. *)
Theorem connect_routes_by_uri_prefix
    (arg : string + NC.PartialConnectionOptions) (c : NC.Connection db remote) :
  do_connect arg = Return c ->
  exists u,
    match arg with
    | inl s => u = s
    | inr p =>
        match NC.p_uri p with
        | NC.Absent => u = ""
        | NC.Undefined => False
        | NC.Value s => u = s
        end
    end /\
    match c with
    | NC.Remote r =>
        String.prefix "db://" u = true /\
        exists options,
          RemoteConnection options = Return r /\
          NC.uri options = Some u /\
          match arg with
          | inl _ => NC.region options = None
          | inr p =>
              NC.p_region p = NC.Absent -> NC.region options = Some "us-west-2"
          end
    | NC.Local conn =>
        String.prefix "db://" u = false /\
        databaseNew u = Return (NC._db conn) /\
        NC.uri (NC._options conn) = Some u /\
        match arg with
        | inl _ => NC.region (NC._options conn) = None
        | inr p =>
            NC.p_region p = NC.Absent ->
            NC.region (NC._options conn) = Some "us-west-2"
        end
    end.
Proof.
  unfold NC.connect. cbv zeta.
  set (options := match arg with inl s => _ | inr p => _ end).
  assert (Huri : forall u, NC.uri options = Some u ->
            match arg with
            | inl s => u = s
            | inr p =>
                match NC.p_uri p with
                | NC.Absent => u = ""
                | NC.Undefined => False
                | NC.Value s => u = s
                end
            end).
  { intros u Hu. destruct arg as [s | p]; subst options; simpl in Hu.
    - congruence.
    - destruct (NC.p_uri p); simpl in Hu; congruence. }
  assert (Hregion : match arg with
                    | inl _ => NC.region options = None
                    | inr p =>
                        NC.p_region p = NC.Absent ->
                        NC.region options = Some "us-west-2"
                    end).
  { destruct arg as [s | p]; subst options; simpl;
      [reflexivity | intros ->; reflexivity]. }
  destruct (NC.uri options) as [u |] eqn:Hu; [| discriminate].
  specialize (Huri u eq_refl).
  destruct (String.prefix "db://" u) eqn:Hprefix; intros H;
    apply bind_inv in H; destruct H as [a [Ha [= <-]]];
    exists u; (split; [exact Huri |]).
  - split; [exact Hprefix |]. exists options. auto.
  - simpl. auto.
Qed.
End NodeClientFacts.

(** ** The HTTP client of remote connections *)

Section RemoteClientFacts.
Context {number bytes ArrowTable : Type}.
Variable post : RemoteClient.Request number -> RemoteClient.settled bytes.
Variable decode : bytes -> string.
Variable tableFromIPC : bytes -> result ArrowTable.

Local Abbreviation do_search := (RemoteClient.search post decode tableFromIPC).

(** X21.  [search] returns a table only for a response of status exactly
    200, and then the table read from that response's body.  A response of
    any other status, a fulfilled one included (a 204, say), makes it throw
    'Server Error' with the status, the status text and the decoded body;
    a request that fails without a response (no connection, the ten
    second timeout) makes it throw a TypeError, not a 'Server Error'.  The
    request goes to [url/v1/table/name] with the API key in the
    [x-api-key] header. *)
Theorem search_returns_only_on_status_200 (this : RemoteClient.HttpLancedbClient)
    (tableName : string) (vector : list number) (k nprobes : number)
    (refineFactor : option number) (columns : option (list string))
    (filter : option string) :
  let request :=
    RemoteClient.search_request this tableName vector k nprobes refineFactor
      columns filter in
  let outcome :=
    do_search this tableName vector k nprobes refineFactor columns filter in
  (forall table, outcome = Return table ->
     exists r, (post request = RemoteClient.Fulfilled r \/
                post request = RemoteClient.Rejected (Some r)) /\
               RemoteClient.status r = 200 /\
               tableFromIPC (RemoteClient.data r) = Return table) /\
  (forall r, post request = RemoteClient.Fulfilled r \/
             post request = RemoteClient.Rejected (Some r) ->
             RemoteClient.status r <> 200 ->
             outcome
             = Throw (Error ("Server Error, status: "
                             ++ print_integer (RemoteClient.status r)
                             ++ ", message: " ++ RemoteClient.statusText r
                             ++ ": " ++ decode (RemoteClient.data r)))) /\
  (post request = RemoteClient.Rejected None -> outcome = Throw TypeError) /\
  RemoteClient.url request = RemoteClient._url this ++ "/v1/table/" ++ tableName /\
  In ("x-api-key", RemoteClient._apiKey this) (RemoteClient.headers request).
Proof.
  intros request outcome. subst outcome. unfold RemoteClient.search.
  fold request. repeat split.
  - intros table H.
    destruct (post request) as [r | [r |]] eqn:Hpost; try discriminate;
      (destruct (Z.eqb_spec (RemoteClient.status r) 200) as [H200 | Hne];
       simpl in H; [| discriminate]);
      exists r; auto.
  - intros r [Hpost | Hpost] Hne; rewrite Hpost;
      (destruct (Z.eqb_spec (RemoteClient.status r) 200); [congruence |]);
      reflexivity.
  - intros Hpost. rewrite Hpost. reflexivity.
  - simpl. right. left. reflexivity.
Qed.
End RemoteClientFacts.

(** ** The Java connection *)

(** The filtered listing is the full listing: on a connection made by
    [connect(uri)], [tableNames(startAfter, limit)] returns exactly what
    [tableNames()] returns, the native listing for [uri], whatever
    [startAfter] and [limit] are. *)
Remark tableNames_ignores_startAfter_and_limit
    (nativeTableNames : option string -> list string)
    (uri startAfter : string) (limit : Z) :
  JavaConnection.tableNames_from nativeTableNames startAfter limit
    (JavaConnection.connect uri)
  = JavaConnection.tableNames nativeTableNames (JavaConnection.connect uri) /\
  JavaConnection.tableNames nativeTableNames (JavaConnection.connect uri)
  = nativeTableNames (Some uri) /\
  JavaConnection.uri (JavaConnection.new uri) = None.
Proof. repeat split. Qed.

(** ** Instances *)

Lemma get_miss_is_stable_witness :
  let c := TC.set 0 "a" (JNumber 1) (TC.new (number := Z) 100) in
  let ops := [(160, OpGet "a"); (170, OpSet "b" JNull); (180, OpDelete "a");
              (190, OpGet "b")] in
  fst (TC.get 50 "a" (snd (TC.run ops (snd (TC.get 150 "a" c))))) = JUndefined.
Proof.
  intros c ops. apply (get_miss_is_stable c 150 50 "a" ops).
  - reflexivity.
  - repeat (constructor; [intros v; discriminate |]). constructor.
Defined.

Lemma step_touches_only_its_key_witness :
  let c := TC.set 0 "a" (JNumber 1) (TC.new (number := Z) 100) in
  TC.cache (snd (TC.step 500 (OpGet "b") c)) !! "a"
  = Some {| TC.value := JNumber 1; TC.expires := 100 |} /\
  fst (TC.get 60 "a" (snd (TC.step 500 (OpSet "b" JNull) c))) = JNumber 1.
Proof.
  intros c.
  destruct (step_touches_only_its_key c 500 60 (OpGet "b") "a") as [Hkept _];
    [discriminate |].
  destruct (step_touches_only_its_key c 500 60 (OpSet "b" JNull) "a")
    as [_ [_ Hread]]; [discriminate |].
  split.
  - rewrite Hkept. reflexivity.
  - rewrite Hread. reflexivity.
Defined.

Lemma writes_to_different_keys_commute_witness :
  let c := TC.new (number := Z) 100 in
  TC.set 1 "a" (JNumber 1) (TC.set 2 "b" (JNumber 2) c)
  = TC.set 2 "b" (JNumber 2) (TC.set 1 "a" (JNumber 1) c).
Proof.
  intros c.
  apply (writes_to_different_keys_commute c 1 2 "a" "b" (JNumber 1) (JNumber 2)).
  discriminate.
Defined.

Lemma set_then_late_get_is_delete_witness :
  let c := TC.set 0 "b" (JNumber 2) (TC.new (number := Z) (-1)) in
  TC.get 7 "a" (TC.set 7 "a" (JNumber 1) c) = (JUndefined, TC.delete "a" c).
Proof.
  intros c. apply (set_then_late_get_is_delete c 7 7 "a" (JNumber 1)).
  simpl. lia.
Defined.

Lemma get_returns_only_the_last_set_witness :
  let ops : list (Z * cache_op Z) :=
    [(0, OpSet "a" (JNumber 1)); (10, OpSet "a" (JNumber 2)); (20, OpGet "b")] in
  exists t, last_write "a" ops None = Some (t, JNumber 2) /\ 50 <= t + 100.
Proof.
  intros ops.
  apply (get_returns_only_the_last_set 100 ops 50 "a" (JNumber 2)).
  - reflexivity.
  - discriminate.
Defined.

Lemma get_returns_the_last_set_witness :
  let ops : list (Z * cache_op Z) :=
    [(0, OpSet "a" (JNumber 1)); (150, OpGet "a"); (160, OpSet "a" (JNumber 2))] in
  TC.get 200 "a" (snd (TC.run ops (TC.new 100)))
  = (JNumber 2, snd (TC.run ops (TC.new 100))).
Proof.
  intros ops. apply (get_returns_the_last_set 100 ops 200 "a" 160 (JNumber 2)).
  - repeat constructor; simpl; lia.
  - reflexivity.
  - lia.
Defined.

Lemma toSQL_on_IntoSql_returns_iff_dates_valid_witness :
  (exists sql,
      UtilTs.toSQL print_integer print_epoch print_undefined
        (JArray [JNumber 1; JArray [JDate (Some 0)]]) = Return sql) /\
  (forall e,
      UtilTs.toSQL print_integer print_epoch print_undefined
        (JArray [JNumber 1; JArray [JDate None]]) = Throw e ->
      e = RangeError).
Proof.
  split.
  - apply (toSQL_on_IntoSql_returns_iff_dates_valid
             print_integer print_epoch print_undefined
             (JArray [JNumber 1; JArray [JDate (Some 0)]]) eq_refl).
    reflexivity.
  - apply (toSQL_on_IntoSql_returns_iff_dates_valid
             print_integer print_epoch print_undefined
             (JArray [JNumber 1; JArray [JDate None]]) eq_refl).
Defined.

Lemma toSQL_array_throws_first_failure_witness :
  UtilTs.toSQL print_integer print_epoch print_undefined
    (JArray [JString "a"; JDate None; JUndefined])
  = Throw RangeError.
Proof.
  apply (toSQL_array_throws_first_failure print_integer print_epoch print_undefined
           [JString "a"] [JUndefined] (JDate None) RangeError).
  - repeat constructor.
  - reflexivity.
Defined.

Lemma convertToTable_reads_first_record_keys_only_witness :
  Arrow.convertToTable (number := Z)
    [ [("id", JNumber 1)]; [("id", JNumber 2); ("vector", JArray [JNumber 9])] ]
  = Arrow.convertToTable [ [("id", JNumber 1)]; [("id", JNumber 2)] ].
Proof.
  apply (convertToTable_reads_first_record_keys_only
           [("id", JNumber 1)]
           [ [("id", JNumber 2); ("vector", JArray [JNumber 9])] ]
           [ [("id", JNumber 2)] ]).
  constructor; [| constructor].
  intros k [<- | []]. reflexivity.
Defined.

Lemma convertToTable_is_rectangular_witness :
  let data : list (Arrow.record Z) :=
    [ [("id", JNumber 1); ("tag", JString "x")]; [("id", JNumber 2)] ] in
  Forall (fun kv => slots (snd kv) = 2%nat)
    [ ("id", Arrow.ArrayVector [JNumber 1; JNumber 2]);
      ("tag", Arrow.ArrayVector [JString "x"; JUndefined]) ].
Proof.
  intros data.
  apply (convertToTable_is_rectangular data
           [ ("id", Arrow.ArrayVector [JNumber 1; JNumber 2]);
             ("tag", Arrow.ArrayVector [JString "x"; JUndefined]) ]).
  reflexivity.
Defined.

Lemma tables_carry_connection_credentials_witness :
  let conn : NC.LocalConnection string :=
    {| NC._options :=
         {| NC.uri := Some "data"; NC.apiKey := None; NC.region := None;
            NC.hostOverride := None;
            NC.awsCredentials :=
              Some {| NC.accessKeyId := "id"; NC.secretKey := "key";
                      NC.sessionToken := Some "token" |} |};
       NC._db := "data" |} in
  NC.credential_args
    {| NC._tbl := 0%nat; NC._name := "t"; NC._embeddings := None;
       NC.t_options := NC._options conn |}
  = NC.awsParams conn.
Proof.
  intros conn.
  apply (proj1 (tables_carry_connection_credentials
                  (number := Z) (buffer := nat) (Schema := list string)
                  (ArrowTable := Arrow.Table Z)
                  StandIn.databaseOpenTable StandIn.tableCreate
                  StandIn.createEmptyTable StandIn.fromTableToBuffer
                  StandIn.chunks StandIn.writeAll conn) "t" None).
  reflexivity.
Defined.

Lemma add_rejects_before_the_native_call_witness :
  let this : NC.LocalTable nat :=
    {| NC._tbl := 5%nat; NC._name := "t"; NC._embeddings := None;
       NC.t_options :=
         {| NC.uri := Some "data"; NC.awsCredentials := None; NC.apiKey := None;
            NC.region := None; NC.hostOverride := None |} |} in
  let data : list (Arrow.record Z) :=
    [ [("vector", JArray [JNumber 1])]; [("vector", JArray [])] ] in
  NC.add StandIn.tableAdd StandIn.writeAll data this
  = (Throw (Error "Invalid vector size, expected 1"), this).
Proof.
  intros this data.
  apply (proj1 (add_rejects_before_the_native_call
                  StandIn.tableAdd StandIn.writeAll data this)).
  reflexivity.
Defined.

Lemma add_resolves_undefined_and_takes_new_handle_witness :
  let this : NC.LocalTable nat :=
    {| NC._tbl := 5%nat; NC._name := "t"; NC._embeddings := None;
       NC.t_options :=
         {| NC.uri := Some "data"; NC.awsCredentials := None; NC.apiKey := None;
            NC.region := None; NC.hostOverride := None |} |} in
  let data : list (Arrow.record Z) :=
    [ [("id", JNumber 1)]; [("id", JNumber 2)] ] in
  NC.add StandIn.tableAdd StandIn.writeAll data this
  = (Return JUndefined,
     {| NC._tbl := 7%nat; NC._name := "t"; NC._embeddings := None;
        NC.t_options := NC.t_options this |}) /\
  NC.countRows StandIn.tableCountRows
    (snd (NC.add StandIn.tableAdd StandIn.writeAll data this))
  = Return 7.
Proof.
  intros this data.
  exact (add_resolves_undefined_and_takes_new_handle
           StandIn.tableAdd StandIn.tableCountRows StandIn.writeAll
           data this 2%nat eq_refl).
Defined.

Lemma createTable_by_name_needs_records_witness :
  let conn : NC.LocalConnection string :=
    {| NC._options :=
         {| NC.uri := Some "data"; NC.awsCredentials := None; NC.apiKey := None;
            NC.region := None; NC.hostOverride := None |};
       NC._db := "data" |} in
  NC.createTable StandIn.tableCreate StandIn.isEmbeddingFunction
    StandIn.createEmptyTable StandIn.fromTableToBuffer StandIn.chunks
    StandIn.writeAll (inl "t")
    (Some [ [("vector", JArray [JNumber 1])]; [("vector", JArray [])] ])
    None None conn
  = Throw (Error "Invalid vector size, expected 1").
Proof.
  intros conn.
  apply (proj2 (proj2 (createTable_by_name_needs_records
                         StandIn.tableCreate StandIn.isEmbeddingFunction
                         StandIn.createEmptyTable StandIn.fromTableToBuffer
                         StandIn.chunks StandIn.writeAll "t" None None conn))).
  - discriminate.
  - reflexivity.
Defined.

Lemma createTable_ignores_unrecognised_options_witness :
  let conn : NC.LocalConnection string :=
    {| NC._options :=
         {| NC.uri := Some "data"; NC.awsCredentials := None; NC.apiKey := None;
            NC.region := None; NC.hostOverride := None |};
       NC._db := "data" |} in
  let o : NC.jsobject :=
    [("writeMode", NC.FString "overwrite"); ("note", NC.FString "nightly")] in
  let w : NC.jsobject := [("writeMode", NC.FString "overwrite")] in
  NC.createTable StandIn.tableCreate StandIn.isEmbeddingFunction
    StandIn.createEmptyTable StandIn.fromTableToBuffer StandIn.chunks
    StandIn.writeAll (inl "t") (Some [ [("id", JNumber 1)] ]) None (Some o) conn
  = NC.createTable StandIn.tableCreate StandIn.isEmbeddingFunction
      StandIn.createEmptyTable StandIn.fromTableToBuffer StandIn.chunks
      StandIn.writeAll (inl "t") (Some [ [("id", JNumber 1)] ]) None None conn /\
  NC.createTable StandIn.tableCreate StandIn.isEmbeddingFunction
    StandIn.createEmptyTable StandIn.fromTableToBuffer StandIn.chunks
    StandIn.writeAll (inl "t") (Some [ [("id", JNumber 1)] ]) (Some o) (Some w) conn
  = NC.createTable StandIn.tableCreate StandIn.isEmbeddingFunction
      StandIn.createEmptyTable StandIn.fromTableToBuffer StandIn.chunks
      StandIn.writeAll (inl "t") (Some [ [("id", JNumber 1)] ]) None (Some w) conn.
Proof.
  intros conn o w.
  assert (Hkeys : List.length o <> 1%nat) by discriminate.
  split.
  - apply (proj1 (createTable_ignores_unrecognised_options
                    StandIn.tableCreate StandIn.isEmbeddingFunction
                    StandIn.createEmptyTable StandIn.fromTableToBuffer
                    StandIn.chunks StandIn.writeAll
                    "t" (Some [ [("id", JNumber 1)] ]) None o conn Hkeys)).
  - apply (proj2 (createTable_ignores_unrecognised_options
                    StandIn.tableCreate StandIn.isEmbeddingFunction
                    StandIn.createEmptyTable StandIn.fromTableToBuffer
                    StandIn.chunks StandIn.writeAll
                    "t" (Some [ [("id", JNumber 1)] ]) (Some w) o conn Hkeys)).
    reflexivity.
Defined.

Lemma connect_routes_by_uri_prefix_witness :
  let p : NC.PartialConnectionOptions :=
    {| NC.p_uri := NC.Absent; NC.p_awsCredentials := NC.Absent;
       NC.p_apiKey := NC.Value "key"; NC.p_region := NC.Absent;
       NC.p_hostOverride := NC.Absent |} in
  let options : NC.ConnectionOptions :=
    {| NC.uri := Some ""; NC.awsCredentials := None; NC.apiKey := Some "key";
       NC.region := Some "us-west-2"; NC.hostOverride := None |} in
  exists u,
    u = "" /\
    String.prefix "db://" u = false /\
    StandIn.databaseNew u = Return "" /\
    NC.uri options = Some u /\
    (NC.p_region p = NC.Absent -> NC.region options = Some "us-west-2").
Proof.
  intros p options.
  apply (connect_routes_by_uri_prefix
           StandIn.databaseNew StandIn.RemoteConnection (inr p)
           (NC.Local {| NC._options := options; NC._db := "" |})
           eq_refl).
Defined.

Lemma search_returns_only_on_status_200_witness :
  RemoteClient.search StandIn.post StandIn.decode StandIn.tableFromIPC
    {| RemoteClient._url := "https://db.example"; RemoteClient._apiKey := "key" |}
    "items" [1; 2] 10 20 None None None
  = Throw (Error "Server Error, status: 404, message: Not Found: no such table").
Proof.
  apply (proj1 (proj2 (search_returns_only_on_status_200
                         StandIn.post StandIn.decode StandIn.tableFromIPC
                         {| RemoteClient._url := "https://db.example";
                            RemoteClient._apiKey := "key" |}
                         "items" [1; 2] 10 20 None None None))
           {| RemoteClient.status := 404; RemoteClient.statusText := "Not Found";
              RemoteClient.data := "no such table" |}).
  - right. reflexivity.
  - discriminate.
Defined.
